(** * Pallet loading: the placement engine of [app.py]

    A shallow embedding of the packing core of [app.py] (orientation
    enumeration, overlap test, free-box splitting and the greedy [pack]
    loop) together with the properties stated about it.

    Number model.  Python [float] values are embedded as exact rationals
    ([Q]): every arithmetic operation is the exact one, comparisons are the
    rational ones and [==] on floats is [Qeq].  Python [int] values are [Z].
    Exceptions of the interpreter are values of [exn]; the three [while] /
    [for] loops of [pack] are driven by a fuel argument. *)

From Stdlib Require Import Floats.
From Stdlib Require Import ZArith QArith Qround Qabs Lqa Lia.
From Stdlib Require Import List String Ascii Bool Permutation Sorted.
From Stdlib Require Import DecimalString.
Import ListNotations.

Local Open Scope Z_scope.
Local Open Scope Q_scope.
Local Open Scope list_scope.

(** ** Python numerics *)

(** [a < b] on floats. *)
Definition Qltb (a b : Q) : bool := negb (Qle_bool b a).

(** Built-in [max(a, b)]: the first argument unless the second is larger. *)
Definition pymax (a b : Q) : Q := if Qltb a b then b else a.

(** Rounding of an exact value to the nearest integer, ties to even. *)
Definition round_half_even (q : Q) : Z :=
  let f := Qfloor q in
  let r := q - inject_Z f in
  if Qltb r (1 # 2) then f
  else if Qltb (1 # 2) r then (f + 1)%Z
  else if Z.even f then f else (f + 1)%Z.

(** Built-in [round(v, 3)]. *)
Definition round3 (v : Q) : Q := Qmake (round_half_even (v * 1000)) 1000.

(** [str(i)] for an integer, as used by the f-string of [pack]. *)
Definition str_int (i : Z) : string := NilZero.string_of_int (Z.to_int i).

(** ** Data classes *)

Module PalletSpec.
Record t := mk { pid : string; l : Q; w : Q; h : Q; qty : Z }.
End PalletSpec.

Module ContainerSpec.
Record t := mk { id : string; l : Q; w : Q; h : Q; qty : Z; type : string }.
End ContainerSpec.

Module LoadedItem.
Record t := mk {
  container_id : string; pallet_id : string;
  x : Q; y : Q; z : Q;
  l : Q; w : Q; h : Q;
  row : Z; col : Z; layer : Z;
  qty_in_stack : Z; label : string; stacked : bool }.
End LoadedItem.

Module FreeBox.
Record t := mk { x : Q; y : Q; z : Q; l : Q; w : Q; h : Q }.
Definition volume (self : t) : Q :=
  pymax (l self) 0 * pymax (w self) 0 * pymax (h self) 0.
End FreeBox.

(** ** Orientations *)

Definition dims : Type := (Q * Q * Q)%type.

Definition candidates (p : PalletSpec.t) : list dims :=
  let d0 := PalletSpec.l p in
  let d1 := PalletSpec.w p in
  let d2 := PalletSpec.h p in
  [ (d0, d1, d2); (d1, d0, d2);
    (d0, d2, d1); (d2, d0, d1);
    (d1, d2, d0); (d2, d1, d0) ].

Definition key_of (c : dims) : dims :=
  let '(a, b, c) := c in (round3 a, round3 b, round3 c).

Definition key_eqb (k1 k2 : dims) : bool :=
  let '(a1, b1, c1) := k1 in
  let '(a2, b2, c2) := k2 in
  Qeq_bool a1 a2 && Qeq_bool b1 b2 && Qeq_bool c1 c2.

(** [key in seen] for the set [seen] of rounded tuples. *)
Definition key_in (k : dims) (seen : list dims) : bool :=
  existsb (key_eqb k) seen.

(** The [for c in candidates] loop with its two accumulators. *)
Fixpoint orientations_loop (cs : list dims) (seen out : list dims) : list dims :=
  match cs with
  | [] => out
  | c :: rest =>
      let key := key_of c in
      if negb (key_in key seen)
      then orientations_loop rest (key :: seen) (out ++ [c])
      else orientations_loop rest seen out
  end.

Definition unique_orientations (p : PalletSpec.t) : list dims :=
  orientations_loop (candidates p) [] [].

(** ** Helpers *)

Definition _pid (p : PalletSpec.t) : string := PalletSpec.pid p.

Definition _overlap_1d (a0 a1 b0 b1 : Q) : bool :=
  negb (Qle_bool a1 b0 || Qle_bool b1 a0).

Definition _intersects (a b : LoadedItem.t) : bool :=
  _overlap_1d (LoadedItem.x a) (LoadedItem.x a + LoadedItem.l a)
              (LoadedItem.x b) (LoadedItem.x b + LoadedItem.l b) &&
  _overlap_1d (LoadedItem.y a) (LoadedItem.y a + LoadedItem.w a)
              (LoadedItem.y b) (LoadedItem.y b + LoadedItem.w b) &&
  _overlap_1d (LoadedItem.z a) (LoadedItem.z a + LoadedItem.h a)
              (LoadedItem.z b) (LoadedItem.z b + LoadedItem.h b).

Definition split_free_both (box : FreeBox.t) (item : LoadedItem.t)
  : list FreeBox.t :=
  let new_boxes := [] in
  let right_l := (FreeBox.x box + FreeBox.l box)
                 - (LoadedItem.x item + LoadedItem.l item) in
  let new_boxes :=
    if Qltb 0 right_l
    then new_boxes ++ [FreeBox.mk (LoadedItem.x item + LoadedItem.l item)
                         (FreeBox.y box) (FreeBox.z box)
                         right_l (FreeBox.w box) (FreeBox.h box)]
    else new_boxes in
  let front_w := (FreeBox.y box + FreeBox.w box)
                 - (LoadedItem.y item + LoadedItem.w item) in
  let new_boxes :=
    if Qltb 0 front_w
    then new_boxes ++ [FreeBox.mk (FreeBox.x box)
                         (LoadedItem.y item + LoadedItem.w item) (FreeBox.z box)
                         (FreeBox.l box) front_w (FreeBox.h box)]
    else new_boxes in
  let above_h := (FreeBox.z box + FreeBox.h box)
                 - (LoadedItem.z item + LoadedItem.h item) in
  let new_boxes :=
    if Qltb 0 above_h
    then new_boxes ++ [FreeBox.mk (FreeBox.x box) (FreeBox.y box)
                         (LoadedItem.z item + LoadedItem.h item)
                         (FreeBox.l box) (FreeBox.w box) above_h]
    else new_boxes in
  filter (fun b => Qltb 0 (FreeBox.volume b)) new_boxes.

(** ** Exceptions, results and the loop monad *)

(** The two ways a [ZeroDivisionError] can arise in [pack]: from [fb.h//h]
    and from the division by [fb.volume()]. *)
Inductive zero_division := float_floor_division | float_division.

Inductive exn :=
| ZeroDivisionError (what : zero_division)
| KeyError (key : string)
| IndexError.

Inductive outcome (A : Type) :=
| Returned (a : A)
| Raised (e : exn)
| OutOfFuel.
Arguments Returned {A} a.
Arguments Raised {A} e.
Arguments OutOfFuel {A}.

Definition bind {A B : Type} (c : outcome A) (k : A -> outcome B) : outcome B :=
  match c with
  | Returned a => k a
  | Raised e => Raised e
  | OutOfFuel => OutOfFuel
  end.

Notation "x <- c ;; k" := (bind c (fun x => k))
  (at level 61, c at next level, right associativity).

(** ** Dictionaries ([missed]) *)

(** A [dict] with string keys, in insertion order. *)
Definition dict : Type := list (string * Z).

Fixpoint dict_get (k : string) (d : dict) : option Z :=
  match d with
  | [] => None
  | (k', v) :: t => if String.eqb k' k then Some v else dict_get k t
  end.

(** [d[k] = v]: overwrite in place, or append a new key. *)
Fixpoint dict_set (k : string) (v : Z) (d : dict) : dict :=
  match d with
  | [] => [(k, v)]
  | (k', v') :: t =>
      if String.eqb k' k then (k, v) :: t else (k', v') :: dict_set k v t
  end.

Definition dict_values (d : dict) : list Z := map snd d.

(** Built-in [sum]. *)
Definition sum (vs : list Z) : Z := fold_left Z.add vs 0%Z.

(** ** Sorting *)

Section StableSort.
Context {A : Type} (le : A -> A -> bool).

Fixpoint insert_sorted (a : A) (xs : list A) : list A :=
  match xs with
  | [] => [a]
  | b :: t => if le a b then a :: b :: t else b :: insert_sorted a t
  end.

(** [sorted] / [list.sort]: the stable arrangement by the order [le]. *)
Definition stable_sort (xs : list A) : list A :=
  fold_right insert_sorted [] xs.
End StableSort.

(** Comparison of the keys [-(l*w*h)]. *)
Definition pallet_key (p : PalletSpec.t) : Q :=
  - (PalletSpec.l p * PalletSpec.w p * PalletSpec.h p).

Definition instance_key (x : ContainerSpec.t * string) : Q :=
  - (ContainerSpec.l (fst x) * ContainerSpec.w (fst x) * ContainerSpec.h (fst x)).

Definition key_le {A : Type} (key : A -> Q) (a b : A) : bool :=
  Qle_bool (key a) (key b).

(** Comparison of the tuple keys [(b.z, b.y, b.x)]. *)
Definition freebox_le (a b : FreeBox.t) : bool :=
  if Qeq_bool (FreeBox.z a) (FreeBox.z b) then
    if Qeq_bool (FreeBox.y a) (FreeBox.y b) then
      Qle_bool (FreeBox.x a) (FreeBox.x b)
    else Qltb (FreeBox.y a) (FreeBox.y b)
  else Qltb (FreeBox.z a) (FreeBox.z b).

(** ** Container instances *)

Definition instance : Type := (ContainerSpec.t * string)%type.

(** [for i in range(i, i + n)]: append [(c, f"{c.id}-{i}")]. *)
Fixpoint range_loop (c : ContainerSpec.t) (i : Z) (n : nat)
                    (container_instances : list instance) : list instance :=
  match n with
  | O => container_instances
  | S n' =>
      range_loop c (i + 1)%Z n'
        (container_instances
           ++ [(c, (ContainerSpec.id c ++ "-" ++ str_int i)%string)])
  end.

(** [for c in containers: for i in range(1, int(c.qty)+1): ...]. *)
Fixpoint expand_loop (containers : list ContainerSpec.t)
                     (container_instances : list instance) : list instance :=
  match containers with
  | [] => container_instances
  | c :: rest =>
      expand_loop rest
        (range_loop c 1%Z (Z.to_nat (ContainerSpec.qty c)) container_instances)
  end.

(** The list [container_instances] after the expansion and the sort. *)
Definition container_instances_of (containers : list ContainerSpec.t)
  : list instance :=
  stable_sort (key_le instance_key) (expand_loop containers []).

(** ** Pack logic *)

Definition STACK_MAX : Z := 0.

(** The tuple [best = (pal, pid, l, w, h, stacks)]. *)
Record choice := mk_choice {
  c_pal : PalletSpec.t; c_pid : string;
  c_l : Q; c_w : Q; c_h : Q; c_stacks : Z }.

(** [min(max_by_height, req, STACK_MAX or max_by_height)], with the
    module constant [STACK_MAX] taken as the argument [cap]. *)
Definition stack_count (cap max_by_height req : Z) : Z :=
  Z.min (Z.min max_by_height req)
        (if (cap =? 0)%Z then max_by_height else cap).

(** Body of [for (l,w,h) in unique_orientations(pal)], on the running
    pair [(best, best_util)]. *)
Definition consider (cap : Z) (fb : FreeBox.t) (pal : PalletSpec.t)
    (pid : string) (req : Z) (acc : option choice * Q) (o : dims)
  : outcome (option choice * Q) :=
  let '(l, w, h) := o in
  if Qle_bool l (FreeBox.l fb) && Qle_bool w (FreeBox.w fb)
     && Qle_bool h (FreeBox.h fb)
  then
    if Qeq_bool h 0 then Raised (ZeroDivisionError float_floor_division)
    else
      let max_by_height := Qfloor (FreeBox.h fb / h) in
      let stacks := stack_count cap max_by_height req in
      if (stacks <=? 0)%Z then Returned acc
      else if Qeq_bool (FreeBox.volume fb) 0
      then Raised (ZeroDivisionError float_division)
      else
        let util := (l * w * h * inject_Z stacks) / FreeBox.volume fb in
        if Qltb (snd acc) util
        then Returned (Some (mk_choice pal pid l w h stacks), util)
        else Returned acc
  else Returned acc.

Fixpoint for_orientations (cap : Z) (fb : FreeBox.t) (pal : PalletSpec.t)
    (pid : string) (req : Z) (os : list dims) (acc : option choice * Q)
  : outcome (option choice * Q) :=
  match os with
  | [] => Returned acc
  | o :: rest =>
      acc' <- consider cap fb pal pid req acc o ;;
      for_orientations cap fb pal pid req rest acc'
  end.

(** [for pal in pallets_sorted: ...]. *)
Fixpoint for_pallets (cap : Z) (fb : FreeBox.t) (missed : dict)
    (pallets_sorted : list PalletSpec.t) (acc : option choice * Q)
  : outcome (option choice * Q) :=
  match pallets_sorted with
  | [] => Returned acc
  | pal :: rest =>
      let pid := _pid pal in
      match dict_get pid missed with
      | None => Raised (KeyError pid)
      | Some req =>
          if (req <=? 0)%Z then for_pallets cap fb missed rest acc
          else
            acc' <- for_orientations cap fb pal pid req
                      (unique_orientations pal) acc ;;
            for_pallets cap fb missed rest acc'
      end
  end.

(** The local variables of [pack] that the loops update. *)
Record locals := mk_locals {
  loaded : list LoadedItem.t;
  missed : dict;
  total_left : Z;
  free : list FreeBox.t;
  row : Z; col : Z;
  placed_any : bool;
  i : nat }.

Definition advance (st : locals) : locals :=
  mk_locals (loaded st) (missed st) (total_left st) (free st)
            (row st) (col st) (placed_any st) (S (i st)).

(** [free.pop(i)]. *)
Definition pop {A : Type} (n : nat) (xs : list A) : list A :=
  firstn n xs ++ skipn (S n) xs.

Definition make_candidate (cid : string) (st : locals) (fb : FreeBox.t)
    (b : choice) : LoadedItem.t :=
  let consumed_h := c_h b * inject_Z (c_stacks b) in
  LoadedItem.mk cid (c_pid b)
    (FreeBox.x fb) (FreeBox.y fb) (FreeBox.z fb)
    (c_l b) (c_w b) consumed_h
    (row st) (col st) (Qfloor (FreeBox.z fb / pymax (c_h b) 1) + 1)%Z
    (c_stacks b) (c_pid b) (1 <? c_stacks b)%Z.

(** [any(_intersects(candidate,ex) for ex in loaded if ...)]. *)
Definition collides_with (cid : string) (h : Q) (candidate : LoadedItem.t)
    (loaded : list LoadedItem.t) : bool :=
  existsb (_intersects candidate)
    (filter (fun ex =>
               String.eqb (LoadedItem.container_id ex) cid
               && Qltb (Qabs (LoadedItem.z ex - LoadedItem.z candidate))
                       (pymax h (LoadedItem.h ex)))
            loaded).

(** The statements executed when the candidate does not collide. *)
Definition commit (st : locals) (fb : FreeBox.t) (b : choice)
    (candidate : LoadedItem.t) (old : Z) : locals :=
  mk_locals (loaded st ++ [candidate])
            (dict_set (c_pid b) (old - c_stacks b)%Z (missed st))
            (total_left st - c_stacks b)%Z
            (pop (i st) (free st) ++ split_free_both fb candidate)
            (row st) (col st + 1)%Z true (i st).

(** Body of [while i<len(free) and total_left>0]. *)
Definition scan_body (cap : Z) (pallets_sorted : list PalletSpec.t)
    (cid : string) (st : locals) : outcome locals :=
  match nth_error (free st) (i st) with
  | None => Raised IndexError
  | Some fb =>
      r <- for_pallets cap fb (missed st) pallets_sorted (None, 0) ;;
      match fst r with
      | Some b =>
          let candidate := make_candidate cid st fb b in
          if collides_with cid (c_h b) candidate (loaded st)
          then Returned (advance st)
          else
            match dict_get (c_pid b) (missed st) with
            | None => Raised (KeyError (c_pid b))
            | Some old => Returned (commit st fb b candidate old)
            end
      | None => Returned (advance st)
      end
  end.

Definition scan_guard (st : locals) : bool :=
  (i st <? List.length (free st))%nat && (0 <? total_left st)%Z.

Fixpoint scan (fuel : nat) (cap : Z) (pallets_sorted : list PalletSpec.t)
    (cid : string) (st : locals) : outcome locals :=
  if scan_guard st then
    match fuel with
    | O => OutOfFuel
    | S fuel' =>
        st' <- scan_body cap pallets_sorted cid st ;;
        scan fuel' cap pallets_sorted cid st'
    end
  else Returned st.

(** [placed_any=False; free.sort(key=lambda b:(b.z,b.y,b.x)); i=0]. *)
Definition begin_pass (st : locals) : locals :=
  mk_locals (loaded st) (missed st) (total_left st)
            (stable_sort freebox_le (free st))
            (row st) (col st) false O.

(** [if placed_any: row+=1;col=1]. *)
Definition end_pass (st : locals) : locals :=
  if placed_any st
  then mk_locals (loaded st) (missed st) (total_left st) (free st)
                 (row st + 1)%Z 1%Z (placed_any st) (i st)
  else st.

Definition fill_guard (st : locals) : bool :=
  placed_any st && (0 <? total_left st)%Z.

(** [while placed_any and total_left>0]; [fuel] bounds each inner scan and
    [n] the number of passes. *)
Fixpoint fill (fuel n : nat) (cap : Z) (pallets_sorted : list PalletSpec.t)
    (cid : string) (st : locals) : outcome locals :=
  if fill_guard st then
    match n with
    | O => OutOfFuel
    | S n' =>
        st' <- scan fuel cap pallets_sorted cid (begin_pass st) ;;
        fill fuel n' cap pallets_sorted cid (end_pass st')
    end
  else Returned st.

(** [free=[FreeBox(0,0,0,c.l,c.w,c.h)]; row=1;col=1;placed_any=True]. *)
Definition enter_container (c : ContainerSpec.t)
    (loaded : list LoadedItem.t) (missed : dict) (total_left : Z) : locals :=
  mk_locals loaded missed total_left
    [FreeBox.mk 0 0 0 (ContainerSpec.l c) (ContainerSpec.w c) (ContainerSpec.h c)]
    1%Z 1%Z true O.

(** [for c,cid in container_instances]. *)
Fixpoint for_containers (fuel : nat) (cap : Z)
    (pallets_sorted : list PalletSpec.t) (insts : list instance)
    (loaded : list LoadedItem.t) (missed : dict) (total_left : Z)
  : outcome (list LoadedItem.t * dict * Z) :=
  match insts with
  | [] => Returned (loaded, missed, total_left)
  | (c, cid) :: rest =>
      if (total_left <=? 0)%Z then Returned (loaded, missed, total_left)
      else
        st <- fill fuel fuel cap pallets_sorted cid
                (enter_container c loaded missed total_left) ;;
        let '(mk_locals loaded' missed' total_left' _ _ _ _ _) := st in
        for_containers fuel cap pallets_sorted rest loaded' missed' total_left'
  end.

(** [missed={_pid(p):int(p.qty) for p in pallets}]. *)
Definition initial_missed (pallets : list PalletSpec.t) : dict :=
  fold_left (fun d p => dict_set (_pid p) (PalletSpec.qty p) d) pallets [].

(** [pack], with [STACK_MAX] as the argument [cap]. *)
Definition pack_with (cap : Z) (fuel : nat)
    (containers : list ContainerSpec.t) (pallets : list PalletSpec.t)
  : outcome (list LoadedItem.t * dict) :=
  let missed := initial_missed pallets in
  let total_left := sum (dict_values missed) in
  let pallets_sorted := stable_sort (key_le pallet_key) pallets in
  let container_instances := container_instances_of containers in
  r <- for_containers fuel cap pallets_sorted container_instances
         [] missed total_left ;;
  Returned (fst (fst r), snd (fst r)).

Definition pack (fuel : nat) (containers : list ContainerSpec.t)
    (pallets : list PalletSpec.t) : outcome (list LoadedItem.t * dict) :=
  pack_with STACK_MAX fuel containers pallets.

(** ** Vocabulary of the properties *)

(** First-seen de-duplication by rounded key, as a reference definition:
    an entry is kept and every later entry with the same key is dropped. *)
Fixpoint dedup_first_seen (cs : list dims) : list dims :=
  match cs with
  | [] => []
  | c :: rest =>
      c :: filter (fun d => negb (key_eqb (key_of d) (key_of c)))
                  (dedup_first_seen rest)
  end.

(** The open-interval overlap of two placed boxes, as a proposition. *)
Definition overlaps (a b : LoadedItem.t) : Prop :=
  (LoadedItem.x a < LoadedItem.x b + LoadedItem.l b /\
   LoadedItem.x b < LoadedItem.x a + LoadedItem.l a) /\
  (LoadedItem.y a < LoadedItem.y b + LoadedItem.w b /\
   LoadedItem.y b < LoadedItem.y a + LoadedItem.w a) /\
  (LoadedItem.z a < LoadedItem.z b + LoadedItem.h b /\
   LoadedItem.z b < LoadedItem.z a + LoadedItem.h a).

(** [sum(it.qty_in_stack for it in loaded if it.pallet_id == pid)]. *)
Fixpoint placed_units (pid : string) (loaded : list LoadedItem.t) : Z :=
  match loaded with
  | [] => 0%Z
  | it :: rest =>
      ((if String.eqb (LoadedItem.pallet_id it) pid
        then LoadedItem.qty_in_stack it else 0)
       + placed_units pid rest)%Z
  end.

Definition remaining (pid : string) (missed : dict) : Z :=
  match dict_get pid missed with Some v => v | None => 0%Z end.

(** Conservation of demand between a start dictionary and a later state. *)
Definition conserved (missed0 : dict) (loaded : list LoadedItem.t)
    (missed : dict) : Prop :=
  forall pid, (placed_units pid loaded + remaining pid missed
               = remaining pid missed0)%Z.

Definition valid_pallet (p : PalletSpec.t) : Prop :=
  0 < PalletSpec.l p /\ 0 < PalletSpec.w p /\ 0 < PalletSpec.h p /\
  (0 <= PalletSpec.qty p)%Z.

Definition valid_container (c : ContainerSpec.t) : Prop :=
  0 < ContainerSpec.l c /\ 0 < ContainerSpec.w c /\ 0 < ContainerSpec.h c /\
  (0 <= ContainerSpec.qty c)%Z.

Definition valid_inputs (containers : list ContainerSpec.t)
    (pallets : list PalletSpec.t) : Prop :=
  Forall valid_container containers /\ Forall valid_pallet pallets.


(** A free box lies inside the interior of container [c]. *)
Definition box_inside (c : ContainerSpec.t) (b : FreeBox.t) : Prop :=
  (0 <= FreeBox.x b /\ FreeBox.x b + FreeBox.l b <= ContainerSpec.l c) /\
  (0 <= FreeBox.y b /\ FreeBox.y b + FreeBox.w b <= ContainerSpec.w c) /\
  (0 <= FreeBox.z b /\ FreeBox.z b + FreeBox.h b <= ContainerSpec.h c).

(** The three residuals of a split, described by their spans. *)
Definition right_residual (box : FreeBox.t) (item : LoadedItem.t) (r : FreeBox.t) : Prop :=
  FreeBox.x r = LoadedItem.x item + LoadedItem.l item /\
  FreeBox.x r + FreeBox.l r == FreeBox.x box + FreeBox.l box /\
  FreeBox.y r = FreeBox.y box /\ FreeBox.w r = FreeBox.w box /\
  FreeBox.z r = FreeBox.z box /\ FreeBox.h r = FreeBox.h box.

Definition front_residual (box : FreeBox.t) (item : LoadedItem.t) (r : FreeBox.t) : Prop :=
  FreeBox.y r = LoadedItem.y item + LoadedItem.w item /\
  FreeBox.y r + FreeBox.w r == FreeBox.y box + FreeBox.w box /\
  FreeBox.x r = FreeBox.x box /\ FreeBox.l r = FreeBox.l box /\
  FreeBox.z r = FreeBox.z box /\ FreeBox.h r = FreeBox.h box.

Definition above_residual (box : FreeBox.t) (item : LoadedItem.t) (r : FreeBox.t) : Prop :=
  FreeBox.z r = LoadedItem.z item + LoadedItem.h item /\
  FreeBox.z r + FreeBox.h r == FreeBox.z box + FreeBox.h box /\
  FreeBox.x r = FreeBox.x box /\ FreeBox.l r = FreeBox.l box /\
  FreeBox.y r = FreeBox.y box /\ FreeBox.w r = FreeBox.w box.

Definition positive_volume (b : FreeBox.t) : bool := Qltb 0 (FreeBox.volume b).

(** Instances of one container type, by instance index [order]. *)
Definition instances_in_order (order : list nat) (c : ContainerSpec.t)
  : list instance :=
  map (fun n => (c, (ContainerSpec.id c ++ "-" ++ str_int (Z.of_nat n))%string))
      order.

(** Instance indices 1..q ascending, and the same descending. *)
Definition ascending (c : ContainerSpec.t) : list instance :=
  instances_in_order (seq 1 (Z.to_nat (ContainerSpec.qty c))) c.

Definition descending (c : ContainerSpec.t) : list instance :=
  instances_in_order (rev (seq 1 (Z.to_nat (ContainerSpec.qty c)))) c.

Definition volume_of (x : instance) : Q :=
  ContainerSpec.l (fst x) * ContainerSpec.w (fst x) * ContainerSpec.h (fst x).

(** The three sides are pairwise different. *)
Definition all_distinct (p : PalletSpec.t) : Prop :=
  ~ PalletSpec.l p == PalletSpec.w p /\
  ~ PalletSpec.l p == PalletSpec.h p /\
  ~ PalletSpec.w p == PalletSpec.h p.

(** The three sides are pairwise different after [round(v, 3)]. *)
Definition rounded_distinct (p : PalletSpec.t) : Prop :=
  ~ round3 (PalletSpec.l p) == round3 (PalletSpec.w p) /\
  ~ round3 (PalletSpec.l p) == round3 (PalletSpec.h p) /\
  ~ round3 (PalletSpec.w p) == round3 (PalletSpec.h p).

(** An outcome meets a postcondition [P] on its value and raises only
    exceptions allowed by [E]; running out of fuel says nothing. *)
Definition satisfies {A : Type} (P : A -> Prop) (E : exn -> Prop)
    (o : outcome A) : Prop :=
  match o with
  | Returned a => P a
  | Raised e => E e
  | OutOfFuel => True
  end.

(** The same for code without loops on fuel: it never runs out. *)
Definition completes {A : Type} (P : A -> Prop) (E : exn -> Prop)
    (o : outcome A) : Prop :=
  match o with
  | Returned a => P a
  | Raised e => E e
  | OutOfFuel => False
  end.

(** What is known of a choice [b] made for free box [fb]. *)
Definition chosen (cap : Z) (fb : FreeBox.t) (missed : dict)
    (pallets_sorted : list PalletSpec.t) (b : choice) : Prop :=
  In (c_pal b) pallets_sorted /\
  c_pid b = _pid (c_pal b) /\
  In (c_l b, c_w b, c_h b) (unique_orientations (c_pal b)) /\
  (c_l b <= FreeBox.l fb /\ c_w b <= FreeBox.w fb /\ c_h b <= FreeBox.h fb) /\
  ~ c_h b == 0 /\
  exists req,
    dict_get (c_pid b) missed = Some req /\ (0 < req)%Z /\
    c_stacks b = stack_count cap (Qfloor (FreeBox.h fb / c_h b)) req /\
    (0 < c_stacks b)%Z.

(** Why the evaluation of free box [fb] can raise. *)
Definition caused (fb : FreeBox.t) (missed : dict)
    (pallets_sorted : list PalletSpec.t) (e : exn) : Prop :=
  match e with
  | ZeroDivisionError float_floor_division =>
      exists p l w h, In p pallets_sorted /\
                      In (l, w, h) (unique_orientations p) /\ h == 0
  | ZeroDivisionError float_division => positive_volume fb = false
  | KeyError k =>
      exists p, In p pallets_sorted /\ _pid p = k /\ dict_get k missed = None
  | IndexError => False
  end.


(** The run returned, with a value meeting [P]. *)
Definition on_return {A : Type} (o : outcome A) (P : A -> Prop) : Prop :=
  match o with
  | Returned a => P a
  | _ => False
  end.

(** The running best is either kept or replaced by a checked choice. *)
Definition kept_or {A : Type} (P : choice -> Prop) (acc : option choice * A)
    (acc' : option choice * A) : Prop :=
  fst acc' = fst acc \/ exists b, fst acc' = Some b /\ P b.


(** The states of the local variables while container [(c, cid)] is being
    filled: the state on entry, and whatever a pass prologue, an iteration of
    the scan or a pass epilogue makes of such a state. *)
Inductive visits (cap : Z) (pallets_sorted : list PalletSpec.t)
    (c : ContainerSpec.t) (cid : string) : locals -> Prop :=
| visits_enter lo mi tl :
    visits cap pallets_sorted c cid (enter_container c lo mi tl)
| visits_begin st :
    visits cap pallets_sorted c cid st ->
    visits cap pallets_sorted c cid (begin_pass st)
| visits_body st st' :
    visits cap pallets_sorted c cid st ->
    scan_guard st = true ->
    scan_body cap pallets_sorted cid st = Returned st' ->
    visits cap pallets_sorted c cid st'
| visits_end st :
    visits cap pallets_sorted c cid st ->
    visits cap pallets_sorted c cid (end_pass st).




(** ** Concrete inputs *)

(** One container 3 x 10 x 5 and four pallet types; every pallet has one
    side of 10, so it can only stand with that side across the container. *)
Definition crossing_containers : list ContainerSpec.t :=
  [ContainerSpec.mk "K" 3 10 5 1 "box"].

Definition crossing_pallets : list PalletSpec.t :=
  [ PalletSpec.mk "A" 1 10 4 1; PalletSpec.mk "B" 2 10 2 1;
    PalletSpec.mk "E" 2 10 1 1; PalletSpec.mk "C" 1 10 1 3 ].

(** Three side lengths that differ only in the fourth decimal place. *)
Definition near_cube : PalletSpec.t :=
  PalletSpec.mk "N" (10001 # 10000) (10002 # 10000) (10003 # 10000) 1.

Definition plain_pallet : PalletSpec.t := PalletSpec.mk "P" 3 2 1 4.


Definition two_of_a_kind : list ContainerSpec.t :=
  [ContainerSpec.mk "K" 3 10 5 2 "box"].

(** ** Further vocabulary *)

(** Two placed boxes are apart along some axis (touching counts as apart). *)
Definition separated (a b : LoadedItem.t) : Prop :=
  LoadedItem.x a + LoadedItem.l a <= LoadedItem.x b \/
  LoadedItem.x b + LoadedItem.l b <= LoadedItem.x a \/
  LoadedItem.y a + LoadedItem.w a <= LoadedItem.y b \/
  LoadedItem.y b + LoadedItem.w b <= LoadedItem.y a \/
  LoadedItem.z a + LoadedItem.h a <= LoadedItem.z b \/
  LoadedItem.z b + LoadedItem.h b <= LoadedItem.z a.



(** The three sides of an orientation, as a list. *)
Definition sides (d : dims) : list Q :=
  let '(a, b, c) := d in [a; b; c].

(** Exactly two of the three sides agree after [round(v, 3)]. *)
Definition two_sides_agree (p : PalletSpec.t) : Prop :=
  (round3 (PalletSpec.l p) == round3 (PalletSpec.w p) /\
   ~ round3 (PalletSpec.w p) == round3 (PalletSpec.h p)) \/
  (round3 (PalletSpec.l p) == round3 (PalletSpec.h p) /\
   ~ round3 (PalletSpec.l p) == round3 (PalletSpec.w p)) \/
  (round3 (PalletSpec.w p) == round3 (PalletSpec.h p) /\
   ~ round3 (PalletSpec.l p) == round3 (PalletSpec.w p)).

(** Two orientations have the same rounded key. *)
Definition same_key (d e : dims) : bool := key_eqb (key_of d) (key_of e).

(** A free box and a placed item overlap (open intervals on all axes). *)
Definition box_overlaps_item (r : FreeBox.t) (item : LoadedItem.t) : Prop :=
  (FreeBox.x r < LoadedItem.x item + LoadedItem.l item /\
   LoadedItem.x item < FreeBox.x r + FreeBox.l r) /\
  (FreeBox.y r < LoadedItem.y item + LoadedItem.w item /\
   LoadedItem.y item < FreeBox.y r + FreeBox.w r) /\
  (FreeBox.z r < LoadedItem.z item + LoadedItem.h item /\
   LoadedItem.z item < FreeBox.z r + FreeBox.h r).





(** Where a placed item comes from: a pallet of the input, one of its
    orientations stacked [qty_in_stack] times, in an instance of the list. *)
Definition provenance (containers : list ContainerSpec.t)
    (pallets : list PalletSpec.t) (it : LoadedItem.t) : Prop :=
  exists p l w h c,
    In p pallets /\ In (l, w, h) (unique_orientations p) /\
    In (c, LoadedItem.container_id it) (container_instances_of containers) /\
    LoadedItem.pallet_id it = PalletSpec.pid p /\
    LoadedItem.label it = PalletSpec.pid p /\
    LoadedItem.l it = l /\ LoadedItem.w it = w /\
    LoadedItem.h it = h * inject_Z (LoadedItem.qty_in_stack it) /\
    LoadedItem.stacked it = (1 <? LoadedItem.qty_in_stack it)%Z.


(** No overlap between items of the same container. *)
Definition disjoint_pair (a b : LoadedItem.t) : Prop :=
  LoadedItem.container_id a = LoadedItem.container_id b -> ~ overlaps a b.

(** An orientation fits the interior of a container. *)
Definition fits_in (c : ContainerSpec.t) (o : dims) : Prop :=
  fst (fst o) <= ContainerSpec.l c /\ snd (fst o) <= ContainerSpec.w c /\
  snd o <= ContainerSpec.h c.

(** No orientation of the pallet fits any of the containers. *)
Definition fits_nowhere (containers : list ContainerSpec.t)
    (p : PalletSpec.t) : Prop :=
  forall c o, In c containers -> In o (unique_orientations p) -> ~ fits_in c o.




Definition at_origin (it : LoadedItem.t) : Prop :=
  LoadedItem.x it = 0 /\ LoadedItem.y it = 0 /\ LoadedItem.z it = 0.

Definition box_at_origin (b : FreeBox.t) : Prop :=
  FreeBox.x b = 0 /\ FreeBox.y b = 0 /\ FreeBox.z b = 0.

Definition unit_volume (p : PalletSpec.t) : Q :=
  PalletSpec.l p * PalletSpec.w p * PalletSpec.h p.

(** ** Drawing and the [/run] route *)

(** In [draw_2d_all]: [next(cc for cc in containers if cid.startswith(cc.id))],
    with [None] for [StopIteration]. *)
Definition drawn_container (containers : list ContainerSpec.t)
    (cid : string) : option ContainerSpec.t :=
  find (fun cc => String.prefix (ContainerSpec.id cc) cid) containers.




(** No container id is the beginning of the id of another container. *)
Definition prefix_free (containers : list ContainerSpec.t) : Prop :=
  forall a b, In a containers -> In b containers ->
    String.prefix (ContainerSpec.id a) (ContainerSpec.id b) = true -> a = b.

(** ** The greedy choice *)

(** The score of an orientation stacked [stacks] times in free box [fb]. *)
Definition utilization (fb : FreeBox.t) (o : dims) (stacks : Z) : Q :=
  let '(l, w, h) := o in (l * w * h * inject_Z stacks) / FreeBox.volume fb.

(** The running pair [(best, best_util)] is consistent. *)
Definition scored (fb : FreeBox.t) (acc : option choice * Q) : Prop :=
  match fst acc with
  | None => snd acc = 0
  | Some b =>
      0 < snd acc /\
      snd acc = utilization fb (c_l b, c_w b, c_h b) (c_stacks b)
  end.

(** Orientation [o] of a fitting pallet with demand [req] is a valid
    candidate for free box [fb]. *)
Definition valid_candidate (cap : Z) (fb : FreeBox.t) (req : Z) (o : dims)
  : Prop :=
  fst (fst o) <= FreeBox.l fb /\ snd (fst o) <= FreeBox.w fb /\
  snd o <= FreeBox.h fb /\
  (0 < stack_count cap (Qfloor (FreeBox.h fb / snd o)) req)%Z.

(** The order of the keys [(b.z, b.y, b.x)]. *)
Definition zyx_le (a b : FreeBox.t) : Prop :=
  FreeBox.z a < FreeBox.z b \/
  (FreeBox.z a == FreeBox.z b /\
   (FreeBox.y a < FreeBox.y b \/
    (FreeBox.y a == FreeBox.y b /\ FreeBox.x a <= FreeBox.x b))).

(** Reporting fields start at 1. *)
Definition one_based (it : LoadedItem.t) : Prop :=
  (1 <= LoadedItem.row it)%Z /\ (1 <= LoadedItem.col it)%Z /\
  (1 <= LoadedItem.layer it)%Z.

(** * Properties *)

(** ** Comparisons and rounding *)

Lemma Qltb_lt (a b : Q) : Qltb a b = true <-> a < b.
Proof.
  unfold Qltb. rewrite negb_true_iff. split; intro H.
  - apply Qnot_le_lt. intro Hle. apply Qle_bool_iff in Hle. congruence.
  - destruct (Qle_bool b a) eqn:E; [|reflexivity].
    apply Qle_bool_iff in E. lra.
Qed.

Lemma Qltb_ge (a b : Q) : Qltb a b = false <-> b <= a.
Proof.
  unfold Qltb. rewrite negb_false_iff. apply Qle_bool_iff.
Qed.

#[local] Instance Qltb_comp : Proper (Qeq ==> Qeq ==> eq) Qltb.
Proof. intros a a' Ha b b' Hb. unfold Qltb. now rewrite Ha, Hb. Qed.

Lemma pymax_le_zero (a : Q) : a <= 0 -> pymax a 0 == 0.
Proof.
  intro H. unfold pymax. destruct (Qltb a 0) eqn:E; [reflexivity|].
  apply Qltb_ge in E. lra.
Qed.

Lemma pymax_pos (a : Q) : 0 < a -> pymax a 0 = a.
Proof.
  intro H. unfold pymax. destruct (Qltb a 0) eqn:E; [|reflexivity].
  apply Qltb_lt in E. lra.
Qed.


Lemma round_half_even_comp (a b : Q) :
  a == b -> round_half_even a = round_half_even b.
Proof.
  intro H. unfold round_half_even. cbv zeta.
  assert (Hf : Qfloor a = Qfloor b) by now rewrite H.
  rewrite Hf.
  assert (Hr : a - inject_Z (Qfloor b) == b - inject_Z (Qfloor b)) by now rewrite H.
  rewrite (Qltb_comp _ _ Hr _ _ (Qeq_refl (1 # 2))).
  rewrite (Qltb_comp _ _ (Qeq_refl (1 # 2)) _ _ Hr).
  reflexivity.
Qed.

Lemma round3_comp (a b : Q) : a == b -> round3 a = round3 b.
Proof.
  intro H. unfold round3. f_equal. apply round_half_even_comp. now rewrite H.
Qed.

(** ** Orientation keys *)

Lemma key_eqb_refl (k : dims) : key_eqb k k = true.
Proof. destruct k as [[a b] c]. simpl. now rewrite !Qeq_bool_refl. Qed.

Lemma key_eqb_sym (k1 k2 : dims) : key_eqb k1 k2 = key_eqb k2 k1.
Proof.
  destruct k1 as [[a1 b1] c1], k2 as [[a2 b2] c2]. simpl.
  now rewrite (Qeq_bool_comm a1), (Qeq_bool_comm b1), (Qeq_bool_comm c1).
Qed.

Lemma key_eqb_trans (k1 k2 k3 : dims) :
  key_eqb k1 k2 = true -> key_eqb k2 k3 = true -> key_eqb k1 k3 = true.
Proof.
  destruct k1 as [[a1 b1] c1], k2 as [[a2 b2] c2], k3 as [[a3 b3] c3]. simpl.
  rewrite !andb_true_iff. intros [[Ha Hb] Hc] [[Ha' Hb'] Hc'].
  repeat split; eapply Qeq_bool_trans; eassumption.
Qed.

Lemma key_in_cons (k k' : dims) (seen : list dims) :
  key_in k (k' :: seen) = key_eqb k k' || key_in k seen.
Proof. reflexivity. Qed.

Lemma key_in_eqb (k k' : dims) (seen : list dims) :
  key_eqb k k' = true -> key_in k' seen = true -> key_in k seen = true.
Proof.
  intros Hk. unfold key_in. rewrite !existsb_exists.
  intros [s [Hs E]]. exists s. split; [assumption|].
  eapply key_eqb_trans; eassumption.
Qed.

Lemma filter_filter {A : Type} (f g : A -> bool) (xs : list A) :
  filter f (filter g xs) = filter (fun a => g a && f a) xs.
Proof.
  induction xs as [|a xs IH]; simpl; [reflexivity|].
  destruct (g a); simpl; [destruct (f a)|]; now rewrite IH.
Qed.

Lemma filter_length_le {A : Type} (f : A -> bool) (xs : list A) :
  (List.length (filter f xs) <= List.length xs)%nat.
Proof.
  induction xs as [|a xs IH]; simpl; [lia|]. destruct (f a); simpl; lia.
Qed.

(** The accumulator loop computes the first-seen de-duplication of what is
    left of the candidates, restricted to keys not yet seen. *)
Lemma orientations_loop_dedup (cs seen out : list dims) :
  orientations_loop cs seen out
  = out ++ filter (fun d => negb (key_in (key_of d) seen)) (dedup_first_seen cs).
Proof.
  revert seen out. induction cs as [|c rest IH]; intros seen out; simpl.
  - now rewrite app_nil_r.
  - destruct (key_in (key_of c) seen) eqn:E; simpl.
    + rewrite IH. f_equal. rewrite filter_filter.
      apply filter_ext_in. intros d _.
      destruct (key_eqb (key_of d) (key_of c)) eqn:Ek; simpl; [|reflexivity].
      now rewrite (key_in_eqb _ _ _ Ek E).
    + rewrite IH, <- app_assoc. simpl. do 2 f_equal.
      rewrite filter_filter. apply filter_ext. intro d.
      unfold key_in. simpl. now rewrite negb_orb.
Qed.

Lemma unique_orientations_dedup (p : PalletSpec.t) :
  unique_orientations p = dedup_first_seen (candidates p).
Proof.
  unfold unique_orientations. rewrite orientations_loop_dedup.
  generalize (dedup_first_seen (candidates p)). intro xs. cbn [app].
  induction xs as [|a xs IH]; simpl; [reflexivity|]. now f_equal.
Qed.

Lemma dedup_first_seen_length (cs : list dims) :
  (List.length (dedup_first_seen cs) <= List.length cs)%nat.
Proof.
  induction cs as [|c rest IH]; simpl; [lia|].
  pose proof (filter_length_le
    (fun d => negb (key_eqb (key_of d) (key_of c))) (dedup_first_seen rest)).
  lia.
Qed.

Lemma dedup_first_seen_incl (cs : list dims) (d : dims) :
  In d (dedup_first_seen cs) -> In d cs.
Proof.
  induction cs as [|c rest IH]; simpl; [tauto|].
  intros [H|H]; [now left|]. right. apply IH.
  apply filter_In in H. tauto.
Qed.

(** Every orientation is one of the six candidate permutations. *)
Lemma unique_orientations_incl (p : PalletSpec.t) (d : dims) :
  In d (unique_orientations p) -> In d (candidates p).
Proof. rewrite unique_orientations_dedup. apply dedup_first_seen_incl. Qed.

Lemma filter_none {A : Type} (f : A -> bool) (xs : list A) :
  (forall a, In a xs -> f a = false) -> filter f xs = [].
Proof.
  induction xs as [|a xs IH]; intro H; simpl; [reflexivity|].
  rewrite (H a (or_introl eq_refl)). apply IH. intros b Hb. apply H. now right.
Qed.

Lemma Qeq_bool_false (a b : Q) : ~ a == b -> Qeq_bool a b = false.
Proof.
  intro H. destruct (Qeq_bool a b) eqn:E; [|reflexivity].
  apply Qeq_bool_iff in E. contradiction.
Qed.

Lemma dedup_first_seen_cons (c : dims) (rest : list dims) :
  dedup_first_seen (c :: rest)
  = c :: filter (fun d => negb (key_eqb (key_of d) (key_of c)))
                (dedup_first_seen rest).
Proof. reflexivity. Qed.

Lemma cube_orientations (p : PalletSpec.t) :
  PalletSpec.l p == PalletSpec.w p -> PalletSpec.w p == PalletSpec.h p ->
  unique_orientations p = [(PalletSpec.l p, PalletSpec.w p, PalletSpec.h p)].
Proof.
  intros Hlw Hwh. rewrite unique_orientations_dedup.
  unfold candidates. rewrite dedup_first_seen_cons. f_equal.
  apply filter_none. intros d Hd.
  apply dedup_first_seen_incl in Hd.
  assert (Ew : round3 (PalletSpec.w p) = round3 (PalletSpec.l p))
    by (apply round3_comp; now symmetry).
  assert (Eh : round3 (PalletSpec.h p) = round3 (PalletSpec.l p))
    by (apply round3_comp; rewrite Hlw; now symmetry).
  apply negb_false_iff.
  simpl in Hd.
  repeat (destruct Hd as [Hd|Hd]; [subst d; unfold key_of; rewrite ?Ew, ?Eh;
                                   apply key_eqb_refl|]).
  contradiction.
Qed.

Lemma distinct_orientations (p : PalletSpec.t) :
  rounded_distinct p -> unique_orientations p = candidates p.
Proof.
  intros (Hlw & Hlh & Hwh).
  assert (Hwl : ~ round3 (PalletSpec.w p) == round3 (PalletSpec.l p))
    by (intro E; apply Hlw; now symmetry).
  assert (Hhl : ~ round3 (PalletSpec.h p) == round3 (PalletSpec.l p))
    by (intro E; apply Hlh; now symmetry).
  assert (Hhw : ~ round3 (PalletSpec.h p) == round3 (PalletSpec.w p))
    by (intro E; apply Hwh; now symmetry).
  apply Qeq_bool_false in Hlw, Hlh, Hwh, Hwl, Hhl, Hhw.
  unfold unique_orientations, candidates.
  cbn [orientations_loop key_in existsb key_of key_eqb].
  rewrite ?Hlw, ?Hlh, ?Hwh, ?Hwl, ?Hhl, ?Hhw, ?Qeq_bool_refl.
  cbn [andb orb negb app].
  reflexivity.
Qed.

(** C6 (as amended): [unique_orientations] is the first-seen de-duplication,
    by the key of the three sides rounded to 3 decimals, of the six axis
    permutations; it has between 1 and 6 entries, exactly 1 for a cube, and
    all 6 when the three sides are pairwise different after rounding. *)
Theorem unique_orientations_spec (p : PalletSpec.t) :
  unique_orientations p = dedup_first_seen (candidates p) /\
  (1 <= List.length (unique_orientations p) <= 6)%nat /\
  (PalletSpec.l p == PalletSpec.w p -> PalletSpec.w p == PalletSpec.h p ->
   List.length (unique_orientations p) = 1%nat) /\
  (rounded_distinct p ->
   unique_orientations p = candidates p /\
   List.length (unique_orientations p) = 6%nat).
Proof.
  split; [apply unique_orientations_dedup|]. split; [|split].
  - rewrite unique_orientations_dedup.
    pose proof (dedup_first_seen_length (candidates p)) as H.
    unfold candidates in *. cbn [dedup_first_seen List.length] in *. lia.
  - intros H1 H2. now rewrite cube_orientations.
  - intro H. rewrite (distinct_orientations p H). now split.
Qed.

Lemma unique_orientations_spec_witness :
  rounded_distinct plain_pallet /\
  List.length (unique_orientations plain_pallet) = 6%nat.
Proof.
  assert (H : rounded_distinct plain_pallet)
    by (repeat split; intro E; vm_compute in E; discriminate).
  split; [exact H|].
  apply (proj2 (proj2 (proj2 (unique_orientations_spec plain_pallet))) H).
Defined.

(** C6 (as stated) fails: three pairwise different sides that agree to three
    decimals give a single orientation, not six. *)
Lemma near_cube_not_six :
  ~ (all_distinct near_cube ->
     List.length (unique_orientations near_cube) = 6%nat).
Proof.
  intro H.
  assert (D : all_distinct near_cube)
    by (repeat split; intro E; vm_compute in E; discriminate).
  specialize (H D). vm_compute in H. discriminate.
Qed.

(** ** Splitting a free box *)

Lemma positive_volume_iff (b : FreeBox.t) :
  positive_volume b = true
  <-> 0 < FreeBox.l b /\ 0 < FreeBox.w b /\ 0 < FreeBox.h b.
Proof.
  unfold positive_volume, FreeBox.volume. rewrite Qltb_lt. split.
  - intro H.
    destruct (Qlt_le_dec 0 (FreeBox.l b)) as [Hl|Hl];
      [|rewrite (pymax_le_zero _ Hl) in H; lra].
    destruct (Qlt_le_dec 0 (FreeBox.w b)) as [Hw|Hw];
      [|rewrite (pymax_le_zero _ Hw) in H; lra].
    destruct (Qlt_le_dec 0 (FreeBox.h b)) as [Hh|Hh];
      [|rewrite (pymax_le_zero _ Hh) in H; lra].
    tauto.
  - intros (Hl & Hw & Hh). rewrite !pymax_pos by assumption.
    apply Qmult_lt_0_compat; [apply Qmult_lt_0_compat|]; assumption.
Qed.

Lemma positive_volume_false_l (b : FreeBox.t) :
  Qltb 0 (FreeBox.l b) = false -> positive_volume b = false.
Proof.
  intro H. destruct (positive_volume b) eqn:E; [|reflexivity].
  apply positive_volume_iff in E. apply Qltb_ge in H. lra.
Qed.

Lemma positive_volume_false_w (b : FreeBox.t) :
  Qltb 0 (FreeBox.w b) = false -> positive_volume b = false.
Proof.
  intro H. destruct (positive_volume b) eqn:E; [|reflexivity].
  apply positive_volume_iff in E. apply Qltb_ge in H. lra.
Qed.

Lemma positive_volume_false_h (b : FreeBox.t) :
  Qltb 0 (FreeBox.h b) = false -> positive_volume b = false.
Proof.
  intro H. destruct (positive_volume b) eqn:E; [|reflexivity].
  apply positive_volume_iff in E. apply Qltb_ge in H. lra.
Qed.

(** The result of the split is the list of the three residuals, kept when
    their volume is positive. *)
Lemma split_free_both_filter (box : FreeBox.t) (item : LoadedItem.t) :
  split_free_both box item
  = filter positive_volume
      [ FreeBox.mk (LoadedItem.x item + LoadedItem.l item)
          (FreeBox.y box) (FreeBox.z box)
          ((FreeBox.x box + FreeBox.l box) - (LoadedItem.x item + LoadedItem.l item))
          (FreeBox.w box) (FreeBox.h box);
        FreeBox.mk (FreeBox.x box)
          (LoadedItem.y item + LoadedItem.w item) (FreeBox.z box)
          (FreeBox.l box)
          ((FreeBox.y box + FreeBox.w box) - (LoadedItem.y item + LoadedItem.w item))
          (FreeBox.h box);
        FreeBox.mk (FreeBox.x box) (FreeBox.y box)
          (LoadedItem.z item + LoadedItem.h item)
          (FreeBox.l box) (FreeBox.w box)
          ((FreeBox.z box + FreeBox.h box) - (LoadedItem.z item + LoadedItem.h item)) ].
Proof.
  unfold split_free_both. cbv zeta.
  set (R := FreeBox.mk (LoadedItem.x item + LoadedItem.l item) _ _ _ _ _).
  set (F := FreeBox.mk _ (LoadedItem.y item + LoadedItem.w item) _ _ _ _).
  set (U := FreeBox.mk _ _ (LoadedItem.z item + LoadedItem.h item) _ _ _).
  fold positive_volume.
  change (fun b => Qltb 0 (FreeBox.volume b)) with positive_volume.
  pose proof (positive_volume_false_l R) as HR.
  pose proof (positive_volume_false_w F) as HF.
  pose proof (positive_volume_false_h U) as HU.
  cbn [FreeBox.l FreeBox.w FreeBox.h R F U] in HR, HF, HU.
  destruct (Qltb 0 (FreeBox.x box + FreeBox.l box
                    - (LoadedItem.x item + LoadedItem.l item))) eqn:E1;
  destruct (Qltb 0 (FreeBox.y box + FreeBox.w box
                    - (LoadedItem.y item + LoadedItem.w item))) eqn:E2;
  destruct (Qltb 0 (FreeBox.z box + FreeBox.h box
                    - (LoadedItem.z item + LoadedItem.h item))) eqn:E3;
  cbn [app filter];
  rewrite ?(HR eq_refl), ?(HF eq_refl), ?(HU eq_refl); reflexivity.
Qed.




(** ** Sorting *)

Section SortFacts.
Context {A : Type}.

Lemma insert_sorted_perm (le : A -> A -> bool) (a : A) (xs : list A) :
  Permutation (a :: xs) (insert_sorted le a xs).
Proof.
  induction xs as [|b t IH]; simpl; [constructor; constructor|].
  destruct (le a b); [apply Permutation_refl|].
  etransitivity; [apply perm_swap|]. now constructor.
Qed.

Lemma stable_sort_perm (le : A -> A -> bool) (xs : list A) :
  Permutation xs (stable_sort le xs).
Proof.
  induction xs as [|a xs IH]; simpl; [constructor|].
  etransitivity; [|apply insert_sorted_perm]. now constructor.
Qed.

Lemma stable_sort_In (le : A -> A -> bool) (xs : list A) (a : A) :
  In a (stable_sort le xs) <-> In a xs.
Proof.
  split; apply Permutation_in;
    [apply Permutation_sym|]; apply stable_sort_perm.
Qed.


Lemma stable_sort_Forall (le : A -> A -> bool) (P : A -> Prop) (xs : list A) :
  Forall P xs -> Forall P (stable_sort le xs).
Proof. apply Permutation_Forall, stable_sort_perm. Qed.

Variable key : A -> Q.

Let ordered (a b : A) : Prop := key a <= key b.

Lemma insert_sorted_ordered (a : A) (xs : list A) :
  StronglySorted ordered xs ->
  StronglySorted ordered (insert_sorted (key_le key) a xs).
Proof.
  induction 1 as [|b t Hs IH Hb]; simpl; [repeat constructor|].
  unfold key_le at 1. destruct (Qle_bool (key a) (key b)) eqn:E.
  - apply Qle_bool_iff in E. constructor; [now constructor|].
    constructor; [exact E|].
    eapply Forall_impl; [|exact Hb]. unfold ordered. intros c Hc.
    eapply Qle_trans; eassumption.
  - constructor; [exact IH|].
    eapply Permutation_Forall; [apply insert_sorted_perm|].
    constructor; [|exact Hb].
    unfold ordered.
    destruct (Qlt_le_dec (key a) (key b)) as [Hlt|Hle]; [|exact Hle].
    apply Qlt_le_weak in Hlt. apply Qle_bool_iff in Hlt. congruence.
Qed.

Lemma stable_sort_ordered (xs : list A) :
  StronglySorted ordered (stable_sort (key_le key) xs).
Proof.
  induction xs as [|a xs IH]; simpl; [constructor|].
  now apply insert_sorted_ordered.
Qed.
End SortFacts.

Lemma StronglySorted_weaken {A : Type} (R R' : A -> A -> Prop) (xs : list A) :
  (forall a b, R a b -> R' a b) -> StronglySorted R xs -> StronglySorted R' xs.
Proof.
  intros HR. induction 1 as [|a t Hs IH Ha]; constructor; [exact IH|].
  eapply Forall_impl; [|exact Ha]. apply HR.
Qed.

(** ** Container instances *)

Lemma range_loop_seq (c : ContainerSpec.t) (n m : nat) (acc : list instance) :
  range_loop c (Z.of_nat m) n acc = acc ++ instances_in_order (seq m n) c.
Proof.
  revert m acc. induction n as [|n IH]; intros m acc; simpl.
  - now rewrite app_nil_r.
  - replace (Z.of_nat m + 1)%Z with (Z.of_nat (S m)) by lia.
    rewrite IH, <- app_assoc. reflexivity.
Qed.

Lemma expand_loop_flat_map (cs : list ContainerSpec.t) (acc : list instance) :
  expand_loop cs acc = acc ++ flat_map ascending cs.
Proof.
  revert acc. induction cs as [|c cs IH]; intro acc; simpl.
  - now rewrite app_nil_r.
  - rewrite IH. change 1%Z with (Z.of_nat 1).
    rewrite range_loop_seq, <- app_assoc. reflexivity.
Qed.

(** C9 (as amended): each container type with quantity [q] yields exactly
    [q] instances carrying the type itself, with ids "{id}-{n}" for n from 1
    to q in ascending order of n, types in input order; the whole list is
    then stably sorted by descending interior volume. *)
Theorem container_instances_spec (containers : list ContainerSpec.t) :
  expand_loop containers [] = flat_map ascending containers /\
  (forall c, ascending c
             = map (fun n => (c, (ContainerSpec.id c ++ "-"
                                  ++ str_int (Z.of_nat n))%string))
                   (seq 1 (Z.to_nat (ContainerSpec.qty c)))) /\
  (forall c, List.length (ascending c) = Z.to_nat (ContainerSpec.qty c)) /\
  container_instances_of containers
  = stable_sort (key_le instance_key) (flat_map ascending containers) /\
  Permutation (flat_map ascending containers)
              (container_instances_of containers) /\
  StronglySorted (fun a b => volume_of b <= volume_of a)
                 (container_instances_of containers).
Proof.
  assert (E : expand_loop containers [] = flat_map ascending containers)
    by apply expand_loop_flat_map.
  unfold container_instances_of. rewrite E.
  repeat split.
  - intro c. unfold ascending, instances_in_order.
    now rewrite length_map, length_seq.
  - apply stable_sort_perm.
  - eapply StronglySorted_weaken; [|apply stable_sort_ordered].
    cbv beta. intros a b H. unfold instance_key in H.
    unfold volume_of. lra.
Qed.

(** C9 (as stated) fails: the instances of a type come out with ascending
    index, "K-1" before "K-2", not descending. *)
Lemma instances_not_descending :
  container_instances_of two_of_a_kind
  <> stable_sort (key_le instance_key) (flat_map descending two_of_a_kind).
Proof.
  intro H. apply (f_equal (map snd)) in H. vm_compute in H. discriminate.
Qed.

(** ** The loops of [pack] *)

Lemma satisfies_bind {A B : Type} (P : A -> Prop) (Q : B -> Prop)
    (E : exn -> Prop) (c : outcome A) (k : A -> outcome B) :
  satisfies P E c -> (forall a, P a -> satisfies Q E (k a)) ->
  satisfies Q E (bind c k).
Proof. destruct c; simpl; auto. Qed.

Lemma satisfies_weaken {A : Type} (P P' : A -> Prop) (E E' : exn -> Prop)
    (o : outcome A) :
  (forall a, P a -> P' a) -> (forall e, E e -> E' e) ->
  satisfies P E o -> satisfies P' E' o.
Proof. destruct o; simpl; auto. Qed.

Lemma satisfies_returned {A : Type} (P : A -> Prop) (E : exn -> Prop)
    (o : outcome A) (a : A) :
  satisfies P E o -> o = Returned a -> P a.
Proof. intros H ->. exact H. Qed.

Lemma completes_bind {A B : Type} (P : A -> Prop) (Q : B -> Prop)
    (E : exn -> Prop) (c : outcome A) (k : A -> outcome B) :
  completes P E c -> (forall a, P a -> completes Q E (k a)) ->
  completes Q E (bind c k).
Proof. destruct c; simpl; auto. Qed.

Lemma completes_weaken {A : Type} (P P' : A -> Prop) (E E' : exn -> Prop)
    (o : outcome A) :
  (forall a, P a -> P' a) -> (forall e, E e -> E' e) ->
  completes P E o -> completes P' E' o.
Proof. destruct o; simpl; auto. Qed.

Lemma completes_satisfies {A : Type} (P : A -> Prop) (E : exn -> Prop)
    (o : outcome A) :
  completes P E o -> satisfies P E o.
Proof. destruct o; simpl; auto. Qed.

Section Loops.
Variables (cap : Z) (pallets_sorted : list PalletSpec.t).
Variable E : exn -> Prop.

(** Rule for the scan of the free list. *)
Lemma scan_satisfies (cid : string) (P : locals -> Prop) :
  (forall st, P st -> scan_guard st = true ->
              satisfies P E (scan_body cap pallets_sorted cid st)) ->
  forall fuel st, P st ->
    satisfies (fun st' => P st' /\ scan_guard st' = false) E
              (scan fuel cap pallets_sorted cid st).
Proof.
  intros Hbody. induction fuel as [|fuel IH]; intros st HP; simpl.
  - destruct (scan_guard st) eqn:G; simpl; auto.
  - destruct (scan_guard st) eqn:G; simpl; auto.
    eapply satisfies_bind; [apply Hbody; assumption|].
    intros st' HP'. now apply IH.
Qed.

(** Rule for the passes over one container. *)
Lemma fill_satisfies (cid : string) (P : locals -> Prop) :
  (forall st, P st -> P (begin_pass st)) ->
  (forall st, P st -> P (end_pass st)) ->
  (forall st, P st -> scan_guard st = true ->
              satisfies P E (scan_body cap pallets_sorted cid st)) ->
  forall fuel n st, P st ->
    satisfies P E (fill fuel n cap pallets_sorted cid st).
Proof.
  intros Hb He Hbody fuel. induction n as [|n IH]; intros st HP; simpl.
  - destruct (fill_guard st); simpl; auto.
  - destruct (fill_guard st); simpl; auto.
    eapply satisfies_bind.
    + apply scan_satisfies; [exact Hbody|]. now apply Hb.
    + intros st' [HP' _]. cbv beta. apply IH. now apply He.
Qed.

(** Rule for the loop over the container instances: [G] relates the
    variables that survive from one container to the next, [P] is the
    invariant inside the container [inst]. *)
Lemma for_containers_satisfies
    (G : list LoadedItem.t -> dict -> Z -> Prop)
    (P : instance -> locals -> Prop) (insts : list instance) :
  (forall c cid lo mi tl, In (c, cid) insts -> G lo mi tl ->
      P (c, cid) (enter_container c lo mi tl)) ->
  (forall inst st, In inst insts -> P inst st -> P inst (begin_pass st)) ->
  (forall inst st, In inst insts -> P inst st -> P inst (end_pass st)) ->
  (forall c cid st, In (c, cid) insts -> P (c, cid) st ->
      scan_guard st = true ->
      satisfies (P (c, cid)) E (scan_body cap pallets_sorted cid st)) ->
  (forall inst st, In inst insts -> P inst st ->
      G (loaded st) (missed st) (total_left st)) ->
  forall fuel lo mi tl, G lo mi tl ->
    satisfies (fun r => G (fst (fst r)) (snd (fst r)) (snd r)) E
      (for_containers fuel cap pallets_sorted insts lo mi tl).
Proof.
  intros Henter Hb He Hbody Hexit fuel.
  induction insts as [|[c cid] rest IH]; intros lo mi tl HG; simpl.
  - exact HG.
  - destruct (tl <=? 0)%Z; simpl; [exact HG|].
    eapply satisfies_bind.
    + apply (fill_satisfies cid (P (c, cid))).
      * intros st. apply Hb. now left.
      * intros st. apply He. now left.
      * intros st. apply Hbody. now left.
      * apply Henter; [now left|exact HG].
    + intros st HP. cbv beta.
      pose proof (Hexit (c, cid) st (or_introl eq_refl) HP) as HG'.
      destruct st as [lo' mi' tl' ? ? ? ? ?]. simpl in HG'.
      apply IH; try assumption.
      * intros c0 cid0 lo0 mi0 tl0 Hin. apply Henter. now right.
      * intros inst st Hin. apply Hb. now right.
      * intros inst st Hin. apply He. now right.
      * intros c0 cid0 st Hin. apply Hbody. now right.
      * intros inst st Hin. apply Hexit. now right.
Qed.
End Loops.

(** ** Choosing the best candidate for a free box *)

Lemma kept_or_trans {A : Type} (P : choice -> Prop)
    (a b c : option choice * A) :
  kept_or P a b -> kept_or P b c -> kept_or P a c.
Proof.
  unfold kept_or. intros [H1|[b1 [H1 Hb1]]] [H2|H2].
  - left. congruence.
  - right. exact H2.
  - right. exists b1. split; [congruence|assumption].
  - right. exact H2.
Qed.

Section Choice.
Variables (cap : Z) (fb : FreeBox.t) (missed : dict).
Variable pallets_sorted : list PalletSpec.t.

Lemma consider_completes (pal : PalletSpec.t) (req : Z)
    (acc : option choice * Q) (o : dims) :
  In pal pallets_sorted -> In o (unique_orientations pal) ->
  dict_get (_pid pal) missed = Some req -> (0 < req)%Z ->
  completes (kept_or (chosen cap fb missed pallets_sorted) acc)
            (caused fb missed pallets_sorted)
            (consider cap fb pal (_pid pal) req acc o).
Proof.
  intros Hpal Ho Hreq Hpos. destruct o as [[l w] h]. unfold consider.
  destruct (Qle_bool l (FreeBox.l fb) && Qle_bool w (FreeBox.w fb)
            && Qle_bool h (FreeBox.h fb)) eqn:Hfit;
    [|simpl; now left].
  apply andb_true_iff in Hfit. destruct Hfit as [Hfit Hh].
  apply andb_true_iff in Hfit. destruct Hfit as [Hl Hw].
  apply Qle_bool_iff in Hl, Hw, Hh.
  destruct (Qeq_bool h 0) eqn:Hz.
  { simpl. apply Qeq_bool_iff in Hz. now exists pal, l, w, h. }
  apply Qeq_bool_neq in Hz. cbv zeta.
  destruct (stack_count cap (Qfloor (FreeBox.h fb / h)) req <=? 0)%Z eqn:Hs;
    [simpl; now left|].
  apply Z.leb_gt in Hs.
  destruct (Qeq_bool (FreeBox.volume fb) 0) eqn:Hv.
  { simpl. apply Qeq_bool_iff in Hv. unfold positive_volume.
    apply Qltb_ge. rewrite Hv. apply Qle_refl. }
  destruct (Qltb (snd acc) _); simpl; [|now left].
  right. eexists. split; [reflexivity|].
  unfold chosen. cbn. repeat split; try assumption.
  exists req. repeat split; assumption.
Qed.

Lemma for_orientations_completes (pal : PalletSpec.t) (req : Z)
    (os : list dims) (acc : option choice * Q) :
  In pal pallets_sorted ->
  (forall o, In o os -> In o (unique_orientations pal)) ->
  dict_get (_pid pal) missed = Some req -> (0 < req)%Z ->
  completes (kept_or (chosen cap fb missed pallets_sorted) acc)
            (caused fb missed pallets_sorted)
            (for_orientations cap fb pal (_pid pal) req os acc).
Proof.
  intros Hpal Hos Hreq Hpos. revert acc Hos.
  induction os as [|o rest IH]; intros acc Hos; simpl; [now left|].
  eapply completes_bind.
  - apply consider_completes; try assumption. apply Hos. now left.
  - intros acc' Hk. cbv beta.
    eapply completes_weaken; [| |apply IH].
    + intros a. apply kept_or_trans. exact Hk.
    + auto.
    + intros o' Ho'. apply Hos. now right.
Qed.

Lemma for_pallets_completes (pals : list PalletSpec.t)
    (acc : option choice * Q) :
  (forall p, In p pals -> In p pallets_sorted) ->
  completes (kept_or (chosen cap fb missed pallets_sorted) acc)
            (caused fb missed pallets_sorted)
            (for_pallets cap fb missed pals acc).
Proof.
  revert acc. induction pals as [|pal rest IH]; intros acc Hin; simpl;
    [now left|].
  assert (Hpal : In pal pallets_sorted) by (apply Hin; now left).
  assert (Hrest : forall p, In p rest -> In p pallets_sorted)
    by (intros p Hp; apply Hin; now right).
  destruct (dict_get (_pid pal) missed) as [req|] eqn:Hreq.
  - destruct (req <=? 0)%Z eqn:Hr; [now apply IH|].
    apply Z.leb_gt in Hr.
    eapply completes_bind.
    + apply for_orientations_completes; auto.
    + intros acc' Hk. cbv beta.
      eapply completes_weaken; [| |apply IH; assumption].
      * intros a. apply kept_or_trans. exact Hk.
      * auto.
  - simpl. now exists pal.
Qed.
End Choice.

(** Every outcome of one iteration of the scan: the index advances, or a
    checked choice is committed, or the evaluation of the box raised. *)
Lemma scan_body_cases (cap : Z) (pallets_sorted : list PalletSpec.t)
    (cid : string) (st : locals) :
  scan_guard st = true ->
  exists fb, nth_error (free st) (i st) = Some fb /\
    completes
      (fun st' =>
         st' = advance st \/
         exists b old,
           chosen cap fb (missed st) pallets_sorted b /\
           dict_get (c_pid b) (missed st) = Some old /\
           collides_with cid (c_h b) (make_candidate cid st fb b) (loaded st)
           = false /\
           st' = commit st fb b (make_candidate cid st fb b) old)
      (caused fb (missed st) pallets_sorted)
      (scan_body cap pallets_sorted cid st).
Proof.
  intro G. unfold scan_guard in G. apply andb_true_iff in G.
  destruct G as [Hi _]. apply Nat.ltb_lt in Hi.
  destruct (nth_error (free st) (i st)) as [fb|] eqn:Hfb;
    [|apply nth_error_None in Hfb; lia].
  exists fb. split; [reflexivity|].
  unfold scan_body. rewrite Hfb.
  eapply completes_bind.
  - apply for_pallets_completes. auto.
  - intros [best util] Hk. cbv beta. simpl fst.
    destruct best as [b|]; [|simpl; now left].
    destruct Hk as [Hk|[b' [Hb' Hch]]]; [discriminate|].
    simpl in Hb'. injection Hb' as <-.
    destruct (collides_with cid (c_h b) _ (loaded st)) eqn:Hc;
      [simpl; now left|].
    pose proof Hch as (_ & _ & _ & _ & _ & req & Hreq & _).
    rewrite Hreq. simpl. right. exists b, req. auto.
Qed.

(** ** Proof rule for [pack] *)

Section PackRule.
Variables (cap : Z) (fuel : nat).
Variables (containers : list ContainerSpec.t) (pallets : list PalletSpec.t).

Let pallets_sorted := stable_sort (key_le pallet_key) pallets.
Let insts := container_instances_of containers.

Variable G : list LoadedItem.t -> dict -> Z -> Prop.
Variable P : instance -> locals -> Prop.
Variable E : exn -> Prop.

Hypothesis Henter : forall c cid lo mi tl,
  In (c, cid) insts -> G lo mi tl -> P (c, cid) (enter_container c lo mi tl).
Hypothesis Hbegin : forall inst st, P inst st -> P inst (begin_pass st).
Hypothesis Hend : forall inst st, P inst st -> P inst (end_pass st).
Hypothesis Hadvance : forall inst st, P inst st -> P inst (advance st).
Hypothesis Hcommit : forall c cid st fb b old,
  In (c, cid) insts -> P (c, cid) st -> scan_guard st = true ->
  nth_error (free st) (i st) = Some fb ->
  chosen cap fb (missed st) pallets_sorted b ->
  dict_get (c_pid b) (missed st) = Some old ->
  P (c, cid) (commit st fb b (make_candidate cid st fb b) old).
Hypothesis Hraise : forall inst st fb e,
  P inst st -> nth_error (free st) (i st) = Some fb ->
  caused fb (missed st) pallets_sorted e -> E e.
Hypothesis Hexit : forall inst st,
  P inst st -> G (loaded st) (missed st) (total_left st).

Lemma scan_body_satisfies (c : ContainerSpec.t) (cid : string) (st : locals) :
  In (c, cid) insts -> P (c, cid) st -> scan_guard st = true ->
  satisfies (P (c, cid)) E (scan_body cap pallets_sorted cid st).
Proof.
  intros Hin HP Hg.
  destruct (scan_body_cases cap pallets_sorted cid st Hg) as [fb [Hfb H]].
  apply completes_satisfies in H.
  eapply satisfies_weaken; [| |exact H].
  - intros st' [->|(b & old & Hch & Hold & _ & ->)].
    + now apply Hadvance.
    + eapply Hcommit; eassumption.
  - intros e He. eapply Hraise; eassumption.
Qed.

Lemma pack_satisfies :
  G [] (initial_missed pallets) (sum (dict_values (initial_missed pallets))) ->
  satisfies (fun r => exists tl, G (fst r) (snd r) tl) E
            (pack_with cap fuel containers pallets).
Proof.
  intro H0. unfold pack_with. cbv zeta.
  eapply satisfies_bind.
  - apply (for_containers_satisfies cap pallets_sorted E G P insts).
    + exact Henter.
    + intros inst st _. apply Hbegin.
    + intros inst st _. apply Hend.
    + intros c cid st Hin. now apply scan_body_satisfies.
    + intros inst st _. apply Hexit.
    + exact H0.
  - intros [[lo mi] tl] HG. simpl in *. now exists tl.
Qed.
End PackRule.

(** ** Dictionary facts *)

Lemma dict_get_set (k k' : string) (v : Z) (d : dict) :
  dict_get k (dict_set k' v d)
  = if String.eqb k' k then Some v else dict_get k d.
Proof.
  induction d as [|[k0 v0] t IH]; simpl.
  - destruct (String.eqb k' k); reflexivity.
  - destruct (String.eqb k0 k') eqn:E0; simpl.
    + apply String.eqb_eq in E0. subst k0.
      destruct (String.eqb k' k); reflexivity.
    + destruct (String.eqb k0 k) eqn:E1.
      * apply String.eqb_eq in E1. subst k0. now rewrite String.eqb_sym, E0.
      * exact IH.
Qed.




Lemma remaining_set (k k' : string) (v : Z) (d : dict) :
  remaining k (dict_set k' v d)
  = if String.eqb k' k then v else remaining k d.
Proof.
  unfold remaining. rewrite dict_get_set.
  destruct (String.eqb k' k); reflexivity.
Qed.

Lemma placed_units_app (pid : string) (xs ys : list LoadedItem.t) :
  placed_units pid (xs ++ ys)
  = (placed_units pid xs + placed_units pid ys)%Z.
Proof. induction xs as [|a xs IH]; simpl; [reflexivity|]. rewrite IH. lia. Qed.

(** ** Membership in the instance list *)

Lemma container_instances_origin (cs : list ContainerSpec.t)
    (c : ContainerSpec.t) (cid : string) :
  In (c, cid) (container_instances_of cs) -> In c cs.
Proof.
  unfold container_instances_of. rewrite stable_sort_In, expand_loop_flat_map.
  cbn [app]. rewrite in_flat_map. intros [c' [Hc' Hin]].
  unfold ascending, instances_in_order in Hin. apply in_map_iff in Hin.
  destruct Hin as [n [Hn _]]. now injection Hn as <- _.
Qed.

(** ** Conservation of demand *)

Lemma conserved_commit (m0 : dict) (st : locals) (fb : FreeBox.t) (b : choice)
    (cid : string) (old : Z) :
  conserved m0 (loaded st) (missed st) ->
  dict_get (c_pid b) (missed st) = Some old ->
  let st' := commit st fb b (make_candidate cid st fb b) old in
  conserved m0 (loaded st') (missed st').
Proof.
  intros H Hold st' pid. subst st'. simpl.
  rewrite placed_units_app, remaining_set. simpl.
  specialize (H pid).
  destruct (String.eqb (c_pid b) pid) eqn:Ek.
  - apply String.eqb_eq in Ek. subst pid.
    unfold remaining in H |- *. rewrite Hold in H. lia.
  - lia.
Qed.

Lemma scan_body_conserved (cap : Z) (ps : list PalletSpec.t) (cid : string)
    (m0 : dict) (st st' : locals) :
  scan_guard st = true ->
  conserved m0 (loaded st) (missed st) ->
  scan_body cap ps cid st = Returned st' ->
  conserved m0 (loaded st') (missed st').
Proof.
  intros Hg H Hrun.
  destruct (scan_body_cases cap ps cid st Hg) as [fb [_ Hc]].
  rewrite Hrun in Hc. simpl in Hc.
  destruct Hc as [->|(b & old & _ & Hold & _ & ->)]; [exact H|].
  now apply conserved_commit.
Qed.

Lemma pack_with_conserved (cap : Z) (fuel : nat)
    (cs : list ContainerSpec.t) (ps : list PalletSpec.t) :
  satisfies (fun r => conserved (initial_missed ps) (fst r) (snd r))
            (fun _ => True) (pack_with cap fuel cs ps).
Proof.
  eapply satisfies_weaken;
    [| |apply (pack_satisfies cap fuel cs ps
                 (fun lo mi _ => conserved (initial_missed ps) lo mi)
                 (fun _ st => conserved (initial_missed ps) (loaded st) (missed st))
                 (fun _ => True))].
  - intros r [_ H]. exact H.
  - auto.
  - auto.
  - auto.
  - intros inst st H. unfold end_pass. destruct (placed_any st); exact H.
  - auto.
  - intros c cid st fb b old _ H _ _ _ Hold. now apply conserved_commit.
  - auto.
  - auto.
  - intro pid. simpl. lia.
Qed.

Lemma fold_set_other (ps : list PalletSpec.t) (d : dict) (k : string) :
  ~ In k (map _pid ps) ->
  dict_get k (fold_left (fun d p => dict_set (_pid p) (PalletSpec.qty p) d) ps d)
  = dict_get k d.
Proof.
  revert d. induction ps as [|p ps IH]; intros d H; simpl; [reflexivity|].
  simpl in H. rewrite IH by tauto. rewrite dict_get_set.
  destruct (String.eqb (_pid p) k) eqn:Ek; [|reflexivity].
  apply String.eqb_eq in Ek. tauto.
Qed.

Lemma initial_missed_unique (ps : list PalletSpec.t) (p : PalletSpec.t) :
  NoDup (map _pid ps) -> In p ps ->
  dict_get (_pid p) (initial_missed ps) = Some (PalletSpec.qty p).
Proof.
  unfold initial_missed. generalize (@nil (string * Z)).
  induction ps as [|q ps IH]; intros d Hnd Hp; simpl; [contradiction|].
  simpl in Hnd. inversion Hnd as [|? ? Hq Hnd']; subst.
  destruct Hp as [->|Hp].
  - rewrite fold_set_other by assumption.
    now rewrite dict_get_set, String.eqb_refl.
  - now apply IH.
Qed.

(** C2: with unique pallet ids, every iteration of the scan loop (and so
    every commit) keeps, for each pallet id, the units placed plus the
    remaining demand equal to what they were at the start, and at return
    this sum is the original quantity of each pallet type. *)
Theorem conservation_of_demand (fuel : nat) (containers : list ContainerSpec.t)
    (pallets : list PalletSpec.t) (placed : list LoadedItem.t) (rest : dict) :
  NoDup (map _pid pallets) ->
  pack fuel containers pallets = Returned (placed, rest) ->
  (forall p, In p pallets ->
     (placed_units (_pid p) placed + remaining (_pid p) rest
      = PalletSpec.qty p)%Z) /\
  (forall cid st st',
     scan_guard st = true ->
     conserved (initial_missed pallets) (loaded st) (missed st) ->
     scan_body STACK_MAX (stable_sort (key_le pallet_key) pallets) cid st
     = Returned st' ->
     conserved (initial_missed pallets) (loaded st') (missed st')).
Proof.
  intros Hnd Hrun. split.
  - intros p Hp.
    pose proof (pack_with_conserved STACK_MAX fuel containers pallets) as H.
    unfold pack in Hrun. rewrite Hrun in H. simpl in H.
    rewrite (H (_pid p)). unfold remaining.
    now rewrite (initial_missed_unique pallets p Hnd Hp).
  - intros cid st st' Hg H Hbody.
    eapply scan_body_conserved; eassumption.
Qed.

Lemma conservation_of_demand_witness :
  on_return (pack 50 crossing_containers crossing_pallets)
    (fun r => (placed_units "C" (fst r) + remaining "C" (snd r) = 3)%Z).
Proof.
  destruct (pack 50 crossing_containers crossing_pallets)
    as [[placed rest]| |] eqn:Hrun; [|vm_compute in Hrun; discriminate..].
  simpl.
  apply (proj1 (conservation_of_demand 50 crossing_containers crossing_pallets
                  placed rest
                  ltac:(vm_compute; repeat constructor; intro H; simpl in H;
                        intuition discriminate)
                  Hrun)
               (PalletSpec.mk "C" 1 10 1 3)).
  simpl. tauto.
Defined.

(** ** Stack counts *)


Lemma pack_with_stacks (cap : Z) (fuel : nat)
    (cs : list ContainerSpec.t) (ps : list PalletSpec.t) :
  satisfies
    (fun r => Forall (fun it => (1 <= LoadedItem.qty_in_stack it)%Z) (fst r))
    (fun _ => True) (pack_with cap fuel cs ps).
Proof.
  eapply satisfies_weaken;
    [| |apply (pack_satisfies cap fuel cs ps
           (fun lo _ _ => Forall (fun it => (1 <= LoadedItem.qty_in_stack it)%Z) lo)
           (fun _ st => Forall (fun it => (1 <= LoadedItem.qty_in_stack it)%Z)
                               (loaded st))
           (fun _ => True))].
  - intros r [_ H]. exact H.
  - auto.
  - auto.
  - auto.
  - intros inst st H. unfold end_pass. destruct (placed_any st); exact H.
  - auto.
  - intros c cid st fb b old _ H _ _ Hch _. simpl.
    apply Forall_app. split; [exact H|]. constructor; [|constructor].
    simpl. destruct Hch as (_ & _ & _ & _ & _ & req & _ & _ & _ & Hpos). lia.
  - auto.
  - auto.
  - constructor.
Qed.



(** ** Bounds *)

Lemma orientation_positive (p : PalletSpec.t) (l w h : Q) :
  0 < PalletSpec.l p -> 0 < PalletSpec.w p -> 0 < PalletSpec.h p ->
  In (l, w, h) (unique_orientations p) -> 0 < l /\ 0 < w /\ 0 < h.
Proof.
  intros Hl Hw Hh Hin. apply unique_orientations_incl in Hin.
  unfold candidates in Hin. simpl in Hin.
  repeat (destruct Hin as [Hin|Hin]; [injection Hin as <- <- <-; tauto|]).
  contradiction.
Qed.

Lemma chosen_positive (cap : Z) (fb : FreeBox.t) (mi : dict)
    (ps : list PalletSpec.t) (b : choice) :
  Forall valid_pallet ps -> chosen cap fb mi ps b ->
  0 < c_l b /\ 0 < c_w b /\ 0 < c_h b.
Proof.
  intros Hv (Hin & _ & Ho & _). rewrite Forall_forall in Hv.
  destruct (Hv _ Hin) as (Hl & Hw & Hh & _).
  eapply orientation_positive; eassumption.
Qed.


Lemma Forall_pop {A : Type} (P : A -> Prop) (n : nat) (xs : list A) :
  Forall P xs -> Forall P (pop n xs).
Proof.
  intro H. unfold pop. rewrite <- (firstn_skipn n xs) in H.
  apply Forall_app in H. destruct H as [H1 H2].
  apply Forall_app. split; [exact H1|].
  change (S n) with (1 + n)%nat. rewrite <- skipn_skipn.
  destruct (skipn n xs) as [|a t]; [constructor|].
  simpl. now inversion H2.
Qed.

Lemma split_free_both_cases (box : FreeBox.t) (item : LoadedItem.t)
    (r : FreeBox.t) :
  In r (split_free_both box item) ->
  positive_volume r = true /\
  (right_residual box item r \/ front_residual box item r
   \/ above_residual box item r).
Proof.
  rewrite split_free_both_filter. intro H. apply filter_In in H.
  destruct H as [H Hv]. split; [exact Hv|].
  simpl in H. destruct H as [<-|[<-|[<-|[]]]].
  - left. unfold right_residual; cbn. repeat split; try reflexivity. ring.
  - right; left. unfold front_residual; cbn. repeat split; try reflexivity. ring.
  - right; right. unfold above_residual; cbn. repeat split; try reflexivity. ring.
Qed.


Lemma split_inside (cap : Z) (c : ContainerSpec.t) (cid : string)
    (st : locals) (fb : FreeBox.t) (ps : list PalletSpec.t) (b : choice) :
  Forall valid_pallet ps -> box_inside c fb ->
  chosen cap fb (missed st) ps b ->
  Forall (box_inside c) (split_free_both fb (make_candidate cid st fb b)).
Proof.
  intros Hv Hfb Hch. apply Forall_forall. intros r Hr.
  apply split_free_both_cases in Hr. destruct Hr as [Hpos Hr].
  apply positive_volume_iff in Hpos. destruct Hpos as (Pl & Pw & Ph).
  destruct (chosen_positive _ _ _ _ _ Hv Hch) as (Hl & Hw & Hh).
  assert (Hsh : 0 < c_h b * inject_Z (c_stacks b)).
  { destruct Hch as (_ & _ & _ & _ & _ & req & _ & _ & _ & Hs).
    apply Qmult_lt_0_compat; [exact Hh|].
    change 0 with (inject_Z 0). now rewrite <- Zlt_Qlt. }
  destruct Hfb as ((X0 & X1) & (Y0 & Y1) & (Z0 & Z1)).
  unfold box_inside.
  destruct Hr as [R|[R|R]];
    destruct R as (E1 & E2 & E3 & E4 & E5 & E6); cbn in E1, E2;
    rewrite ?E1, ?E3, ?E4, ?E5, ?E6 in *; repeat split; lra.
Qed.




(** ** Exceptions *)






(** ** Overlap of placed items *)

(** C1 fails on the code: on a valid input with unique ids, the stack of
    three "C" pallets is committed although it runs into the "E" pallet
    placed before it: the pre-filter of the collision test compares the
    vertical distance with the unit height, not with the stacked height. *)
Theorem crossing_stacks_overlap :
  valid_inputs crossing_containers crossing_pallets /\
  NoDup (map _pid crossing_pallets) /\
  exists placed rest a b,
    pack 50 crossing_containers crossing_pallets = Returned (placed, rest) /\
    nth_error placed 2 = Some a /\ nth_error placed 3 = Some b /\
    LoadedItem.container_id a = LoadedItem.container_id b /\
    LoadedItem.pallet_id a = "E"%string /\
    LoadedItem.pallet_id b = "C"%string /\
    _intersects a b = true /\ overlaps a b.
Proof.
  split; [|split].
  - split; repeat constructor; reflexivity || (intro E; discriminate E).
  - vm_compute. repeat constructor; intro H; simpl in H; intuition discriminate.
  - eexists _, _, _, _. split; [vm_compute; reflexivity|].
    split; [reflexivity|]. split; [reflexivity|].
    split; [reflexivity|]. split; [reflexivity|]. split; [reflexivity|].
    split; [reflexivity|].
    unfold overlaps; cbn. repeat split; reflexivity.
Qed.

(** ** Free boxes have positive volume *)




(** The passes over a container only go through visited states. *)
Lemma fill_visits (cap : Z) (ps : list PalletSpec.t) (c : ContainerSpec.t)
    (cid : string) (fuel n : nat) (lo : list LoadedItem.t) (mi : dict) (tl : Z) :
  satisfies (visits cap ps c cid) (fun _ => True)
            (fill fuel n cap ps cid (enter_container c lo mi tl)).
Proof.
  apply fill_satisfies.
  - apply visits_begin.
  - apply visits_end.
  - intros st Hvis Hg.
    destruct (scan_body cap ps cid st) as [st'| |] eqn:Hbody; simpl; auto.
    eapply visits_body; eassumption.
  - apply visits_enter.
Qed.




(** ** Termination *)

















(** * Further properties *)

(** ** The overlap test *)

Lemma _overlap_1d_true (a0 a1 b0 b1 : Q) :
  _overlap_1d a0 a1 b0 b1 = true <-> a0 < b1 /\ b0 < a1.
Proof.
  unfold _overlap_1d. rewrite negb_true_iff, orb_false_iff.
  fold (Qltb b0 a1). fold (Qltb a0 b1).
  assert (E1 : Qle_bool a1 b0 = false <-> b0 < a1).
  { rewrite <- Qltb_lt. unfold Qltb. now rewrite negb_true_iff. }
  assert (E2 : Qle_bool b1 a0 = false <-> a0 < b1).
  { rewrite <- Qltb_lt. unfold Qltb. now rewrite negb_true_iff. }
  rewrite E1, E2. tauto.
Qed.

Lemma _intersects_overlaps (a b : LoadedItem.t) :
  _intersects a b = true <-> overlaps a b.
Proof.
  unfold _intersects, overlaps.
  rewrite !andb_true_iff, !_overlap_1d_true. tauto.
Qed.

(** X1: the test [_intersects] is true exactly when the two boxes overlap in
    the open-interval sense on all three axes, false exactly when they are
    apart (or only touch) along some axis, and it does not depend on the
    order of its arguments. *)
Theorem intersects_characterised (a b : LoadedItem.t) :
  (_intersects a b = true <-> overlaps a b) /\
  (_intersects a b = false <-> separated a b) /\
  _intersects a b = _intersects b a.
Proof.
  split; [apply _intersects_overlaps|]. split.
  - rewrite <- not_true_iff_false, _intersects_overlaps.
    unfold overlaps, separated. split.
    + intro H.
      destruct (Qlt_le_dec (LoadedItem.x a) (LoadedItem.x b + LoadedItem.l b));
        [|tauto].
      destruct (Qlt_le_dec (LoadedItem.x b) (LoadedItem.x a + LoadedItem.l a));
        [|tauto].
      destruct (Qlt_le_dec (LoadedItem.y a) (LoadedItem.y b + LoadedItem.w b));
        [|tauto].
      destruct (Qlt_le_dec (LoadedItem.y b) (LoadedItem.y a + LoadedItem.w a));
        [|tauto].
      destruct (Qlt_le_dec (LoadedItem.z a) (LoadedItem.z b + LoadedItem.h b));
        [|tauto].
      destruct (Qlt_le_dec (LoadedItem.z b) (LoadedItem.z a + LoadedItem.h a));
        [|tauto].
      exfalso. apply H. tauto.
    + intros H ((X1 & X2) & (Y1 & Y2) & (Z1 & Z2)).
      destruct H as [H|[H|[H|[H|[H|H]]]]]; lra.
  - apply eq_true_iff_eq. rewrite !_intersects_overlaps.
    unfold overlaps. tauto.
Qed.




(** ** Volume of a free box *)



(** ** More on orientations *)

Lemma candidates_sides (p : PalletSpec.t) (d : dims) :
  In d (candidates p) ->
  Permutation (sides d) [PalletSpec.l p; PalletSpec.w p; PalletSpec.h p] /\
  fst (fst d) * snd (fst d) * snd d
  == PalletSpec.l p * PalletSpec.w p * PalletSpec.h p.
Proof.
  unfold candidates. simpl.
  intros [<-|[<-|[<-|[<-|[<-|[<-|[]]]]]]]; simpl; split; try ring.
  - apply Permutation_refl.
  - apply perm_swap.
  - apply perm_skip, perm_swap.
  - eapply perm_trans; [apply perm_swap|apply perm_skip, perm_swap].
  - eapply perm_trans; [apply perm_skip, perm_swap|apply perm_swap].
  - eapply perm_trans; [apply perm_swap|].
    eapply perm_trans; [apply perm_skip, perm_swap|apply perm_swap].
Qed.

(** X4: every orientation returned for a pallet consists of the pallet's
    own three sides in some order, so all orientations have the unit volume
    of the pallet. *)
Theorem orientations_are_permutations (p : PalletSpec.t) :
  Forall (fun d =>
            Permutation (sides d)
                        [PalletSpec.l p; PalletSpec.w p; PalletSpec.h p] /\
            fst (fst d) * snd (fst d) * snd d
            == PalletSpec.l p * PalletSpec.w p * PalletSpec.h p)
         (unique_orientations p).
Proof.
  apply Forall_forall. intros d Hd.
  apply candidates_sides. now apply unique_orientations_incl.
Qed.

Lemma ForallOrdPairs_filter {A : Type} (R : A -> A -> Prop) (f : A -> bool)
    (xs : list A) :
  ForallOrdPairs R xs -> ForallOrdPairs R (filter f xs).
Proof.
  induction 1 as [|a t Ha Ht IH]; simpl; [constructor|].
  destruct (f a); [|exact IH]. constructor; [|exact IH].
  apply Forall_forall. intros b Hb. apply filter_In in Hb.
  rewrite Forall_forall in Ha. apply Ha. tauto.
Qed.

Lemma dedup_first_seen_distinct (cs : list dims) :
  ForallOrdPairs (fun d e => same_key e d = false) (dedup_first_seen cs).
Proof.
  induction cs as [|c rest IH]; [constructor|].
  rewrite dedup_first_seen_cons. constructor.
  - apply Forall_forall. intros e He. apply filter_In in He.
    destruct He as [_ He]. now apply negb_true_iff in He.
  - now apply ForallOrdPairs_filter.
Qed.

Lemma dedup_first_seen_represents (cs : list dims) (c : dims) :
  In c cs -> exists d, In d (dedup_first_seen cs) /\ same_key c d = true.
Proof.
  induction cs as [|c0 rest IH]; [contradiction|].
  rewrite dedup_first_seen_cons. intros [->|Hin].
  - exists c. split; [now left|apply key_eqb_refl].
  - destruct (IH Hin) as [d [Hd Hk]].
    destruct (same_key d c0) eqn:E.
    + exists c0. split; [now left|].
      unfold same_key in *. eapply key_eqb_trans; eassumption.
    + exists d. split; [|exact Hk]. right. apply filter_In.
      split; [exact Hd|]. unfold same_key in E. now rewrite E.
Qed.

(** X5: no two orientations returned for a pallet have the same rounded
    key, and each of the six axis permutations has the same rounded key as
    one of the returned orientations. *)
Theorem orientations_distinct_and_complete (p : PalletSpec.t) :
  ForallOrdPairs (fun d e => same_key e d = false) (unique_orientations p) /\
  Forall (fun c => Exists (fun d => same_key c d = true)
                          (unique_orientations p))
         (candidates p).
Proof.
  rewrite unique_orientations_dedup. split.
  - apply dedup_first_seen_distinct.
  - apply Forall_forall. intros c Hc. apply Exists_exists.
    now apply dedup_first_seen_represents.
Qed.

(** X6: when exactly two of the three sides agree after rounding to three
    decimals, the pallet has exactly three orientations. *)
Theorem two_equal_sides_three_orientations (p : PalletSpec.t) :
  two_sides_agree p -> List.length (unique_orientations p) = 3%nat.
Proof.
  intro H.
  assert (Hsym : forall a b, Qeq_bool a b = Qeq_bool b a)
    by (intros; apply Qeq_bool_comm).
  assert (Hcases :
    exists blw blh bwh,
      Qeq_bool (round3 (PalletSpec.l p)) (round3 (PalletSpec.w p)) = blw /\
      Qeq_bool (round3 (PalletSpec.l p)) (round3 (PalletSpec.h p)) = blh /\
      Qeq_bool (round3 (PalletSpec.w p)) (round3 (PalletSpec.h p)) = bwh /\
      ((blw = true /\ blh = false /\ bwh = false) \/
       (blw = false /\ blh = true /\ bwh = false) \/
       (blw = false /\ blh = false /\ bwh = true))).
  { do 3 eexists. repeat split; try reflexivity.
    destruct H as [[E N]|[[E N]|[E N]]].
    - left. repeat split.
      + now apply Qeq_bool_iff.
      + apply Qeq_bool_false. intro E'. apply N. now rewrite <- E.
      + now apply Qeq_bool_false.
    - right; left. repeat split.
      + now apply Qeq_bool_false.
      + now apply Qeq_bool_iff.
      + apply Qeq_bool_false. intro E'. apply N. now rewrite E, E'.
    - right; right. repeat split.
      + now apply Qeq_bool_false.
      + apply Qeq_bool_false. intro E'. apply N. now rewrite E, E'.
      + now apply Qeq_bool_iff. }
  destruct Hcases as (blw & blh & bwh & Elw & Elh & Ewh & Hb).
  pose proof (Hsym (round3 (PalletSpec.w p)) (round3 (PalletSpec.l p))) as Ewl.
  pose proof (Hsym (round3 (PalletSpec.h p)) (round3 (PalletSpec.l p))) as Ehl.
  pose proof (Hsym (round3 (PalletSpec.h p)) (round3 (PalletSpec.w p))) as Ehw.
  rewrite Elw in Ewl. rewrite Elh in Ehl. rewrite Ewh in Ehw.
  unfold unique_orientations, candidates.
  cbn [orientations_loop key_in existsb key_of key_eqb].
  rewrite ?Elw, ?Elh, ?Ewh, ?Ewl, ?Ehl, ?Ehw, ?Qeq_bool_refl.
  destruct Hb as [(-> & -> & ->)|[(-> & -> & ->)|(-> & -> & ->)]];
    reflexivity.
Qed.

Lemma two_equal_sides_three_orientations_witness :
  List.length (unique_orientations (PalletSpec.mk "B" 2 10 2 1)) = 3%nat.
Proof.
  apply two_equal_sides_three_orientations.
  right; left. split; [reflexivity|]. intro E. vm_compute in E. discriminate.
Defined.

(** ** More on splitting *)

(** X7: no box returned by the split overlaps the item it was split
    around, wherever the item is. *)
Theorem residuals_clear_of_item (box : FreeBox.t) (item : LoadedItem.t) :
  Forall (fun r => ~ box_overlaps_item r item) (split_free_both box item).
Proof.
  apply Forall_forall. intros r Hr.
  apply split_free_both_cases in Hr. destruct Hr as [_ Hr].
  unfold box_overlaps_item. intros ((X1 & X2) & (Y1 & Y2) & (Z1 & Z2)).
  destruct Hr as [R|[R|R]]; destruct R as (E & _); rewrite E in *; lra.
Qed.





(** ** More on [pack] *)

Lemma no_instances (cs : list ContainerSpec.t) :
  Forall (fun c => (ContainerSpec.qty c <= 0)%Z) cs ->
  container_instances_of cs = [].
Proof.
  intro H. unfold container_instances_of. rewrite expand_loop_flat_map.
  cbn [app]. induction H as [|c cs Hc _ IH]; [reflexivity|].
  simpl. unfold ascending at 1.
  replace (Z.to_nat (ContainerSpec.qty c)) with 0%nat by lia.
  simpl. exact IH.
Qed.

(** X10: when no container type has a positive quantity (in particular
    when the container list is empty), nothing is placed and the
    remaining-demand map holds the quantities as given. *)
Theorem pack_without_containers (fuel : nat)
    (containers : list ContainerSpec.t) (pallets : list PalletSpec.t) :
  Forall (fun c => (ContainerSpec.qty c <= 0)%Z) containers ->
  pack fuel containers pallets = Returned ([], initial_missed pallets).
Proof.
  intro H. unfold pack, pack_with. cbv zeta.
  now rewrite (no_instances containers H).
Qed.

Lemma pack_without_containers_witness :
  pack 0 [ContainerSpec.mk "K" 3 10 5 0 "box"] crossing_pallets
  = Returned ([], initial_missed crossing_pallets).
Proof.
  apply pack_without_containers. repeat constructor. simpl. lia.
Defined.

Lemma dict_set_keys (k : string) (v old : Z) (d : dict) :
  dict_get k d = Some old -> map fst (dict_set k v d) = map fst d.
Proof.
  induction d as [|[k0 v0] t IH]; simpl; [discriminate|].
  destruct (String.eqb k0 k) eqn:E; simpl.
  - intros _. apply String.eqb_eq in E. now subst.
  - intro H. now rewrite IH.
Qed.

Lemma dict_set_nonneg (k : string) (v : Z) (d : dict) :
  (0 <= v)%Z -> Forall (fun kv => (0 <= snd kv)%Z) d ->
  Forall (fun kv => (0 <= snd kv)%Z) (dict_set k v d).
Proof.
  intros Hv. induction 1 as [|[k0 v0] t H0 Ht IH]; simpl.
  - now repeat constructor.
  - destruct (String.eqb k0 k); constructor; auto.
Qed.

Lemma initial_missed_nonneg (ps : list PalletSpec.t) :
  Forall (fun p => (0 <= PalletSpec.qty p)%Z) ps ->
  Forall (fun kv => (0 <= snd kv)%Z) (initial_missed ps).
Proof.
  unfold initial_missed.
  assert (H : Forall (fun kv : string * Z => (0 <= snd kv)%Z) [])
    by constructor.
  revert H. generalize (@nil (string * Z)).
  induction ps as [|p ps IH]; intros d Hd Hps; simpl; [exact Hd|].
  inversion Hps; subst. apply IH; [|assumption].
  now apply dict_set_nonneg.
Qed.

Lemma placed_units_nonneg (pid : string) (lo : list LoadedItem.t) :
  Forall (fun it => (1 <= LoadedItem.qty_in_stack it)%Z) lo ->
  (0 <= placed_units pid lo)%Z.
Proof.
  induction 1 as [|it t H _ IH]; simpl; [lia|].
  destruct (String.eqb (LoadedItem.pallet_id it) pid); lia.
Qed.

Lemma chosen_within_demand (cap : Z) (fb : FreeBox.t) (mi : dict)
    (ps : list PalletSpec.t) (b : choice) (old : Z) :
  chosen cap fb mi ps b -> dict_get (c_pid b) mi = Some old ->
  (1 <= c_stacks b <= old)%Z.
Proof.
  intros (_ & _ & _ & _ & _ & req & Hreq & _ & Hs & Hpos) Hold.
  rewrite Hreq in Hold. injection Hold as <-.
  unfold stack_count in Hs. lia.
Qed.

Lemma pack_with_demand_map (cap : Z) (fuel : nat)
    (cs : list ContainerSpec.t) (ps : list PalletSpec.t) :
  satisfies
    (fun r => map fst (snd r) = map fst (initial_missed ps) /\
              (Forall (fun kv => (0 <= snd kv)%Z) (initial_missed ps) ->
               Forall (fun kv => (0 <= snd kv)%Z) (snd r)))
    (fun _ => True) (pack_with cap fuel cs ps).
Proof.
  set (J := fun mi : dict =>
              map fst mi = map fst (initial_missed ps) /\
              (Forall (fun kv => (0 <= snd kv)%Z) (initial_missed ps) ->
               Forall (fun kv => (0 <= snd kv)%Z) mi)).
  eapply satisfies_weaken;
    [| |apply (pack_satisfies cap fuel cs ps
           (fun _ mi _ => J mi) (fun _ st => J (missed st)) (fun _ => True))].
  - intros r [_ H]. exact H.
  - auto.
  - auto.
  - auto.
  - intros inst st H. unfold end_pass. destruct (placed_any st); exact H.
  - auto.
  - intros c cid st fb b old _ [H1 H2] _ _ Hch Hold. simpl. split.
    + now rewrite (dict_set_keys _ _ old).
    + intro H0. apply dict_set_nonneg; [|now apply H2].
      pose proof (chosen_within_demand _ _ _ _ _ _ Hch Hold). lia.
  - auto.
  - auto.
  - split; auto.
Qed.

(** X11: the remaining-demand map returned by [pack] has the keys of the
    initial map, in the same order; no entry is larger than it was at the
    start; and when no input quantity is negative, no entry is negative. *)
Theorem remaining_demand_map (fuel : nat) (containers : list ContainerSpec.t)
    (pallets : list PalletSpec.t) (placed : list LoadedItem.t) (rest : dict) :
  pack fuel containers pallets = Returned (placed, rest) ->
  map fst rest = map fst (initial_missed pallets) /\
  (forall pid, (remaining pid rest <= remaining pid (initial_missed pallets))%Z) /\
  (Forall (fun p => (0 <= PalletSpec.qty p)%Z) pallets ->
   Forall (fun kv => (0 <= snd kv)%Z) rest).
Proof.
  intro Hrun. unfold pack in Hrun.
  pose proof (pack_with_demand_map STACK_MAX fuel containers pallets) as H1.
  pose proof (pack_with_conserved STACK_MAX fuel containers pallets) as H2.
  pose proof (pack_with_stacks STACK_MAX fuel containers pallets) as H3.
  rewrite Hrun in H1, H2, H3. simpl in H1, H2, H3.
  destruct H1 as [Hk Hn]. split; [exact Hk|]. split.
  - intro pid. specialize (H2 pid).
    pose proof (placed_units_nonneg pid placed H3). lia.
  - intro Hq. apply Hn. now apply initial_missed_nonneg.
Qed.

Lemma remaining_demand_map_witness :
  on_return (pack 50 crossing_containers crossing_pallets)
    (fun r => map fst (snd r) = map fst (initial_missed crossing_pallets)).
Proof.
  destruct (pack 50 crossing_containers crossing_pallets)
    as [[placed rest]| |] eqn:Hrun; [|vm_compute in Hrun; discriminate..].
  simpl.
  apply (remaining_demand_map 50 crossing_containers crossing_pallets
           placed rest Hrun).
Defined.

Lemma pack_with_provenance (cap : Z) (fuel : nat)
    (cs : list ContainerSpec.t) (ps : list PalletSpec.t) :
  satisfies (fun r => Forall (provenance cs ps) (fst r))
            (fun _ => True) (pack_with cap fuel cs ps).
Proof.
  eapply satisfies_weaken;
    [| |apply (pack_satisfies cap fuel cs ps
           (fun lo _ _ => Forall (provenance cs ps) lo)
           (fun _ st => Forall (provenance cs ps) (loaded st))
           (fun _ => True))].
  - intros r [_ H]. exact H.
  - auto.
  - auto.
  - auto.
  - intros inst st H. unfold end_pass. destruct (placed_any st); exact H.
  - auto.
  - intros c cid st fb b old Hin H _ _ Hch _. simpl.
    apply Forall_app. split; [exact H|]. constructor; [|constructor].
    destruct Hch as (Hp & Hpid & Ho & _).
    exists (c_pal b), (c_l b), (c_w b), (c_h b), c. cbn.
    repeat split; try assumption; try reflexivity.
    exact (proj1 (stable_sort_In _ _ _) Hp).
  - auto.
  - auto.
  - constructor.
Qed.

(** X12: every placed item is a pallet of the input in one of its
    orientations: its id and label are the pallet's id, its footprint is the
    orientation's, its height is the orientation's height times the stack
    count, its [stacked] flag says whether the count exceeds 1, and its
    container id is that of an expanded instance. *)
Theorem placed_items_provenance (fuel : nat)
    (containers : list ContainerSpec.t) (pallets : list PalletSpec.t)
    (placed : list LoadedItem.t) (rest : dict) :
  pack fuel containers pallets = Returned (placed, rest) ->
  Forall (provenance containers pallets) placed.
Proof.
  intro Hrun. unfold pack in Hrun.
  pose proof (pack_with_provenance STACK_MAX fuel containers pallets) as H.
  rewrite Hrun in H. exact H.
Qed.

Lemma placed_items_provenance_witness :
  on_return (pack 50 crossing_containers crossing_pallets)
    (fun r => Forall (provenance crossing_containers crossing_pallets) (fst r)).
Proof.
  destruct (pack 50 crossing_containers crossing_pallets)
    as [[placed rest]| |] eqn:Hrun; [|vm_compute in Hrun; discriminate..].
  simpl.
  apply (placed_items_provenance 50 crossing_containers crossing_pallets
           placed rest Hrun).
Defined.

(** ** What the collision test guarantees *)

Section PackRuleChecked.
Variables (cap : Z) (fuel : nat).
Variables (containers : list ContainerSpec.t) (pallets : list PalletSpec.t).
Variable G : list LoadedItem.t -> Prop.

Hypothesis Hcommit : forall cid st fb b,
  G (loaded st) ->
  nth_error (free st) (i st) = Some fb ->
  chosen cap fb (missed st)
         (stable_sort (key_le pallet_key) pallets) b ->
  collides_with cid (c_h b) (make_candidate cid st fb b) (loaded st) = false ->
  G (loaded st ++ [make_candidate cid st fb b]).

End PackRuleChecked.



Lemma pymax_ge_r (a b : Q) : b <= pymax a b.
Proof.
  unfold pymax. destruct (Qltb a b) eqn:E; [apply Qle_refl|].
  now apply Qltb_ge in E.
Qed.










(** ** Demand that cannot be served *)

Lemma NoDup_map_inj {A B : Type} (f : A -> B) (xs : list A) (a b : A) :
  NoDup (map f xs) -> In a xs -> In b xs -> f a = f b -> a = b.
Proof.
  induction xs as [|x xs IH]; simpl; [contradiction|].
  intros Hnd Ha Hb E. inversion Hnd as [|? ? Hx Hnd']; subst.
  destruct Ha as [->|Ha], Hb as [->|Hb]; auto.
  - exfalso. apply Hx. rewrite E. now apply in_map.
  - exfalso. apply Hx. rewrite <- E. now apply in_map.
Qed.

Lemma placed_units_none (pid : string) (lo : list LoadedItem.t) :
  Forall (fun it => LoadedItem.pallet_id it <> pid) lo ->
  placed_units pid lo = 0%Z.
Proof.
  induction 1 as [|it t H _ IH]; simpl; [reflexivity|].
  destruct (String.eqb (LoadedItem.pallet_id it) pid) eqn:E; [|lia].
  apply String.eqb_eq in E. contradiction.
Qed.

Lemma pack_with_never_places (cap : Z) (fuel : nat)
    (cs : list ContainerSpec.t) (ps : list PalletSpec.t) (p : PalletSpec.t) :
  Forall valid_pallet ps -> NoDup (map _pid ps) -> In p ps ->
  fits_nowhere cs p ->
  satisfies
    (fun r => Forall (fun it => LoadedItem.pallet_id it <> _pid p) (fst r))
    (fun _ => True) (pack_with cap fuel cs ps).
Proof.
  intros Hv Hnd Hp Hfit.
  assert (Hvs : Forall valid_pallet (stable_sort (key_le pallet_key) ps))
    by now apply stable_sort_Forall.
  eapply satisfies_weaken;
    [| |apply (pack_satisfies cap fuel cs ps
           (fun lo _ _ => Forall (fun it => LoadedItem.pallet_id it <> _pid p) lo)
           (fun inst st =>
              In (fst inst) cs /\
              Forall (box_inside (fst inst)) (free st) /\
              Forall (fun it => LoadedItem.pallet_id it <> _pid p) (loaded st))
           (fun _ => True))].
  - intros r [_ H]. exact H.
  - auto.
  - intros c cid lo mi tl Hin H. simpl.
    split; [eapply container_instances_origin; exact Hin|].
    split; [|exact H].
    constructor; [|constructor]. unfold box_inside. cbn. repeat split; lra.
  - intros inst st (H0 & H1 & H2). simpl. repeat split; try assumption.
    now apply stable_sort_Forall.
  - intros inst st H. unfold end_pass. destruct (placed_any st); exact H.
  - auto.
  - intros c cid st fb b old Hin (H0 & H1 & H2) _ Hfb Hch _. simpl in *.
    assert (Hbox : box_inside c fb).
    { rewrite Forall_forall in H1. apply H1. eapply nth_error_In. exact Hfb. }
    split; [exact H0|]. split.
    + apply Forall_app. split; [now apply Forall_pop|].
      eapply split_inside; eassumption.
    + apply Forall_app. split; [exact H2|]. constructor; [|constructor].
      cbn. intro Epid.
      destruct Hch as (Hpal & Hpid & Ho & (Fl & Fw & Fh) & _).
      assert (Hsame : c_pal b = p).
      { apply (NoDup_map_inj _pid ps); try assumption.
        - exact (proj1 (stable_sort_In _ _ _) Hpal).
        - congruence. }
      rewrite Hsame in Ho.
      apply (Hfit c (c_l b, c_w b, c_h b) H0 Ho).
      destruct Hbox as ((X0 & X1) & (Y0 & Y1) & (Z0 & Z1)).
      unfold fits_in. cbn. repeat split; lra.
  - auto.
  - intros inst st (_ & _ & H). exact H.
  - constructor.
Qed.

(** X15: on valid inputs with unique pallet ids, a pallet type none of
    whose orientations fits within the dimensions of any container is never
    placed, and its whole quantity is reported as remaining demand. *)
Theorem infeasible_pallet_left_over (fuel : nat)
    (containers : list ContainerSpec.t) (pallets : list PalletSpec.t)
    (p : PalletSpec.t) (placed : list LoadedItem.t) (rest : dict) :
  valid_inputs containers pallets -> NoDup (map _pid pallets) ->
  In p pallets -> fits_nowhere containers p ->
  pack fuel containers pallets = Returned (placed, rest) ->
  Forall (fun it => LoadedItem.pallet_id it <> PalletSpec.pid p) placed /\
  dict_get (PalletSpec.pid p) rest = Some (PalletSpec.qty p).
Proof.
  intros [_ Hv] Hnd Hp Hfit Hrun. unfold pack in Hrun.
  pose proof (pack_with_never_places STACK_MAX fuel containers pallets p
                Hv Hnd Hp Hfit) as H1.
  pose proof (pack_with_conserved STACK_MAX fuel containers pallets) as H2.
  pose proof (pack_with_demand_map STACK_MAX fuel containers pallets) as H3.
  rewrite Hrun in H1, H2, H3. simpl in H1, H2, H3.
  split; [exact H1|].
  specialize (H2 (_pid p)). rewrite (placed_units_none _ _ H1) in H2.
  unfold remaining in H2.
  rewrite (initial_missed_unique pallets p Hnd Hp) in H2.
  change (PalletSpec.pid p) with (_pid p).
  destruct (dict_get (_pid p) rest) as [v|] eqn:E.
  - f_equal. lia.
  - exfalso.
    assert (Hin : In (_pid p) (map fst rest)).
    { destruct H3 as [-> _].
      pose proof (initial_missed_unique pallets p Hnd Hp) as Hget.
      clear - Hget. induction (initial_missed pallets) as [|[k v] t IH];
        simpl in *; [discriminate|].
      destruct (String.eqb k (_pid p)) eqn:Ek.
      - left. now apply String.eqb_eq.
      - right. now apply IH. }
    clear - E Hin. induction rest as [|[k v] t IH]; simpl in *; [contradiction|].
    destruct (String.eqb k (_pid p)) eqn:Ek; [discriminate|].
    destruct Hin as [Hk|Hin];
      [rewrite Hk, String.eqb_refl in Ek; discriminate|].
    now apply IH.
Qed.

Lemma infeasible_pallet_left_over_witness :
  on_return
    (pack 50 [ContainerSpec.mk "C2" 600 230 240 1 "20ft"]
             [PalletSpec.mk "P" 700 100 100 1])
    (fun r => dict_get "P" (snd r) = Some 1%Z).
Proof.
  destruct (pack 50 [ContainerSpec.mk "C2" 600 230 240 1 "20ft"]
                    [PalletSpec.mk "P" 700 100 100 1])
    as [[placed rest]| |] eqn:Hrun; [|vm_compute in Hrun; discriminate..].
  simpl.
  apply (infeasible_pallet_left_over 50
           [ContainerSpec.mk "C2" 600 230 240 1 "20ft"]
           [PalletSpec.mk "P" 700 100 100 1]
           (PalletSpec.mk "P" 700 100 100 1) placed rest).
  - split; repeat constructor; reflexivity || (intro E; discriminate E).
  - repeat constructor. intros [].
  - now left.
  - intros c o [<-|[]] Ho (F1 & F2 & F3).
    vm_compute in Ho.
    destruct Ho as [<-|[<-|[<-|[]]]]; vm_compute in F1, F2, F3; auto.
  - exact Hrun.
Defined.

(** ** Causes of failure *)





(** ** The first placement *)

Lemma pack_with_first_at_origin (cap : Z) (fuel : nat)
    (cs : list ContainerSpec.t) (ps : list PalletSpec.t) :
  satisfies (fun r => Forall at_origin (firstn 1 (fst r)))
            (fun _ => True) (pack_with cap fuel cs ps).
Proof.
  eapply satisfies_weaken;
    [| |apply (pack_satisfies cap fuel cs ps
           (fun lo _ _ => Forall at_origin (firstn 1 lo))
           (fun _ st =>
              (loaded st = [] -> Forall box_at_origin (free st)) /\
              Forall at_origin (firstn 1 (loaded st)))
           (fun _ => True))].
  - intros r [_ H]. exact H.
  - auto.
  - intros c cid lo mi tl _ H. simpl. split; [|exact H].
    intros _. repeat constructor.
  - intros inst st [H1 H2]. simpl. split; [|exact H2].
    intro E. apply stable_sort_Forall. now apply H1.
  - intros inst st H. unfold end_pass. destruct (placed_any st); exact H.
  - auto.
  - intros c cid st fb b old _ [H1 H2] _ Hfb _ _. simpl. split.
    + intro E. now apply app_eq_nil in E as [_ E].
    + destruct (loaded st) as [|it t] eqn:El; [|exact H2].
      simpl. constructor; [|constructor].
      specialize (H1 eq_refl). rewrite Forall_forall in H1.
      exact (H1 fb (nth_error_In _ _ Hfb)).
  - auto.
  - intros inst st [_ H]. exact H.
  - constructor.
Qed.

(** X17: whatever is placed first is placed at the origin [(0, 0, 0)] of
    its container. *)
Theorem first_item_at_origin (fuel : nat) (containers : list ContainerSpec.t)
    (pallets : list PalletSpec.t) (first : LoadedItem.t)
    (others : list LoadedItem.t) (rest : dict) :
  pack fuel containers pallets = Returned (first :: others, rest) ->
  LoadedItem.x first = 0 /\ LoadedItem.y first = 0 /\ LoadedItem.z first = 0.
Proof.
  intro Hrun. unfold pack in Hrun.
  pose proof (pack_with_first_at_origin STACK_MAX fuel containers pallets) as H.
  rewrite Hrun in H. simpl in H. now inversion H.
Qed.

Lemma first_item_at_origin_witness :
  on_return (pack 50 crossing_containers crossing_pallets)
    (fun r => Forall at_origin (firstn 1 (fst r))).
Proof.
  destruct (pack 50 crossing_containers crossing_pallets)
    as [[[|first others] rest]| |] eqn:Hrun;
    [vm_compute in Hrun; discriminate| |vm_compute in Hrun; discriminate..].
  simpl. constructor; [|constructor].
  apply (first_item_at_origin 50 crossing_containers crossing_pallets
           first others rest Hrun).
Defined.

(** ** The order in which pallets are tried *)

Lemma insert_sorted_filter {A : Type} (key : A -> Q) (v : Q) (a : A)
    (xs : list A) :
  filter (fun x => Qeq_bool (key x) v) (insert_sorted (key_le key) a xs)
  = filter (fun x => Qeq_bool (key x) v) (a :: xs).
Proof.
  induction xs as [|b t IH]; [reflexivity|].
  cbn [insert_sorted]. unfold key_le at 1.
  destruct (Qle_bool (key a) (key b)) eqn:E; [reflexivity|].
  cbn [filter] in *. rewrite IH.
  destruct (Qeq_bool (key a) v) eqn:Ea; [|reflexivity].
  destruct (Qeq_bool (key b) v) eqn:Eb; [|reflexivity].
  apply Qeq_bool_iff in Ea, Eb.
  assert (Hle : key a <= key b) by (rewrite Ea, Eb; apply Qle_refl).
  apply Qle_bool_iff in Hle. congruence.
Qed.

Lemma stable_sort_filter {A : Type} (key : A -> Q) (v : Q) (xs : list A) :
  filter (fun x => Qeq_bool (key x) v) (stable_sort (key_le key) xs)
  = filter (fun x => Qeq_bool (key x) v) xs.
Proof.
  induction xs as [|a xs IH]; [reflexivity|].
  cbn [stable_sort fold_right]. rewrite insert_sorted_filter.
  cbn [filter]. fold (stable_sort (key_le key) xs). now rewrite IH.
Qed.

(** X18: the list in which [pack] tries the pallet types holds the same
    pallets as the input, in order of descending unit volume, pallets of
    equal unit volume staying in their input order. *)
Theorem pallets_tried_largest_first (pallets : list PalletSpec.t) :
  Permutation pallets (stable_sort (key_le pallet_key) pallets) /\
  StronglySorted (fun a b => unit_volume b <= unit_volume a)
                 (stable_sort (key_le pallet_key) pallets) /\
  (forall v,
     filter (fun p => Qeq_bool (unit_volume p) v)
            (stable_sort (key_le pallet_key) pallets)
     = filter (fun p => Qeq_bool (unit_volume p) v) pallets).
Proof.
  split; [apply stable_sort_perm|]. split.
  - eapply StronglySorted_weaken; [|apply stable_sort_ordered].
    cbv beta. intros a b H. unfold pallet_key in H. unfold unit_volume. lra.
  - intro v.
    pose proof (stable_sort_filter pallet_key (- v) pallets) as H.
    assert (E : forall p, Qeq_bool (pallet_key p) (- v)
                          = Qeq_bool (unit_volume p) v).
    { intro p. apply eq_true_iff_eq. rewrite !Qeq_bool_iff.
      unfold pallet_key, unit_volume. split; intro H'; lra. }
    rewrite !(filter_ext _ _ E) in H. exact H.
Qed.

(** ** Finding the container of an image *)

Lemma prefix_empty (s : string) : String.prefix "" s = true.
Proof. destruct s; reflexivity. Qed.

Lemma prefix_append (a b : string) : String.prefix a (a ++ b)%string = true.
Proof.
  induction a as [|ch a IH]; [apply prefix_empty|]. simpl.
  destruct (ascii_dec ch ch); [exact IH|congruence].
Qed.

Lemma prefix_common (x y s : string) :
  String.prefix x s = true -> String.prefix y s = true ->
  String.prefix x y = true \/ String.prefix y x = true.
Proof.
  revert y s. induction x as [|cx x IH]; intros y s Hx Hy;
    [left; apply prefix_empty|].
  destruct y as [|cy y]; [right; apply prefix_empty|].
  destruct s as [|cs s]; simpl in Hx, Hy; [discriminate|].
  destruct (ascii_dec cx cs) as [->|]; [|discriminate].
  destruct (ascii_dec cy cs) as [->|]; [|discriminate].
  simpl. destruct (ascii_dec cs cs); [|congruence].
  eapply IH; eassumption.
Qed.

Lemma container_instances_member (cs : list ContainerSpec.t)
    (c : ContainerSpec.t) (cid : string) :
  In (c, cid) (container_instances_of cs) ->
  In c cs /\ In (c, cid) (ascending c).
Proof.
  unfold container_instances_of. rewrite stable_sort_In, expand_loop_flat_map.
  cbn [app]. rewrite in_flat_map. intros [c' [Hc' Hin]].
  assert (E : c = c').
  { unfold ascending, instances_in_order in Hin. apply in_map_iff in Hin.
    destruct Hin as [n [Hn _]]. now injection Hn. }
  subst c'. now split.
Qed.

Lemma instance_id_prefix (c : ContainerSpec.t) (cid : string) :
  In (c, cid) (ascending c) -> String.prefix (ContainerSpec.id c) cid = true.
Proof.
  unfold ascending, instances_in_order. intro Hin. apply in_map_iff in Hin.
  destruct Hin as [n [Hn _]]. injection Hn as <-. apply prefix_append.
Qed.

Lemma drawn_container_lookup (containers : list ContainerSpec.t)
    (c : ContainerSpec.t) (cid : string) :
  In (c, cid) (container_instances_of containers) ->
  (exists cc, drawn_container containers cid = Some cc /\ In cc containers /\
              String.prefix (ContainerSpec.id cc) cid = true) /\
  (prefix_free containers -> drawn_container containers cid = Some c).
Proof.
  intro Hin. apply container_instances_member in Hin.
  destruct Hin as [Hc Hasc].
  pose proof (instance_id_prefix c cid Hasc) as Hpre.
  assert (Hfound : exists cc, drawn_container containers cid = Some cc /\
                     In cc containers /\
                     String.prefix (ContainerSpec.id cc) cid = true).
  { unfold drawn_container.
    destruct (find (fun cc => String.prefix (ContainerSpec.id cc) cid)
                   containers) as [cc|] eqn:E.
    - apply find_some in E. exists cc. tauto.
    - exfalso. pose proof (find_none _ _ E c Hc) as H. simpl in H. congruence. }
  split; [exact Hfound|].
  intro Hfree. destruct Hfound as (cc & Hcc & Hin & Hp).
  rewrite Hcc. f_equal.
  destruct (prefix_common _ _ _ Hp Hpre) as [H|H].
  - now apply Hfree.
  - symmetry. now apply Hfree.
Qed.

(** X19: the container outline that [draw_2d_all] looks up for the id of an
    expanded instance always exists and is a container whose id begins that
    instance id; it is the container the instance was expanded from as soon
    as no container id is the beginning of another container's id. *)
Theorem drawn_container_found (containers : list ContainerSpec.t)
    (c : ContainerSpec.t) (cid : string) :
  In (c, cid) (container_instances_of containers) ->
  (exists cc, drawn_container containers cid = Some cc /\ In cc containers /\
              String.prefix (ContainerSpec.id cc) cid = true) /\
  (prefix_free containers -> drawn_container containers cid = Some c).
Proof. apply drawn_container_lookup. Qed.

Lemma drawn_container_found_witness :
  drawn_container crossing_containers "K-1"
  = Some (ContainerSpec.mk "K" 3 10 5 1 "box").
Proof.
  apply (drawn_container_found crossing_containers
           (ContainerSpec.mk "K" 3 10 5 1 "box") "K-1").
  - vm_compute. now left.
  - intros a b [<-|[]] [<-|[]] _. reflexivity.
Defined.

(** ** The containers of the [/run] route *)



(** ** The chosen candidate is the best one *)

Section BestChoice.
Variables (cap : Z) (fb : FreeBox.t).

Lemma consider_best (pal : PalletSpec.t) (pid : string) (req : Z)
    (acc acc' : option choice * Q) (o : dims) :
  scored fb acc ->
  consider cap fb pal pid req acc o = Returned acc' ->
  scored fb acc' /\ snd acc <= snd acc' /\
  (valid_candidate cap fb req o ->
   utilization fb o (stack_count cap (Qfloor (FreeBox.h fb / snd o)) req)
   <= snd acc').
Proof.
  intros Hsc. destruct o as [[l w] h]. unfold consider, valid_candidate.
  cbn [fst snd].
  destruct (Qle_bool l (FreeBox.l fb) && Qle_bool w (FreeBox.w fb)
            && Qle_bool h (FreeBox.h fb)) eqn:Hfit.
  2:{ intro E. injection E as <-. split; [exact Hsc|].
      split; [apply Qle_refl|]. intros (Hl & Hw & Hh & _).
      apply Qle_bool_iff in Hl, Hw, Hh. rewrite Hl, Hw, Hh in Hfit.
      discriminate. }
  destruct (Qeq_bool h 0); [discriminate|]. cbv zeta.
  destruct (stack_count cap (Qfloor (FreeBox.h fb / h)) req <=? 0)%Z eqn:Hs.
  { intro E. injection E as <-. split; [exact Hsc|].
    split; [apply Qle_refl|]. intros (_ & _ & _ & Hpos).
    apply Z.leb_le in Hs. lia. }
  destruct (Qeq_bool (FreeBox.volume fb) 0); [discriminate|].
  assert (Hnn : 0 <= snd acc).
  { unfold scored in Hsc. destruct (fst acc).
    - destruct Hsc as [H _]. now apply Qlt_le_weak.
    - rewrite Hsc. apply Qle_refl. }
  destruct (Qltb (snd acc) _) eqn:Hlt; intro E; injection E as <-.
  - apply Qltb_lt in Hlt. cbn [fst snd]. split.
    + unfold scored. cbn. split; [|reflexivity].
      eapply Qle_lt_trans; eassumption.
    + split; [now apply Qlt_le_weak|]. intros _. apply Qle_refl.
  - apply Qltb_ge in Hlt. split; [exact Hsc|].
    split; [apply Qle_refl|]. intros _. exact Hlt.
Qed.

Lemma for_orientations_best (pal : PalletSpec.t) (pid : string) (req : Z) :
  forall os acc acc',
    scored fb acc ->
    for_orientations cap fb pal pid req os acc = Returned acc' ->
    scored fb acc' /\ snd acc <= snd acc' /\
    (forall o, In o os -> valid_candidate cap fb req o ->
       utilization fb o (stack_count cap (Qfloor (FreeBox.h fb / snd o)) req)
       <= snd acc').
Proof.
  induction os as [|o rest IH]; intros acc acc' Hsc Hrun; simpl in Hrun.
  - injection Hrun as <-. split; [exact Hsc|].
    split; [apply Qle_refl|]. intros o [].
  - destruct (consider cap fb pal pid req acc o) as [acc1| |] eqn:E;
      simpl in Hrun; try discriminate.
    destruct (consider_best _ _ _ _ _ _ Hsc E) as (S1 & L1 & U1).
    destruct (IH _ _ S1 Hrun) as (S2 & L2 & U2).
    split; [exact S2|]. split; [eapply Qle_trans; eassumption|].
    intros o' [<-|Hin] Hv.
    + eapply Qle_trans; [now apply U1|exact L2].
    + now apply U2.
Qed.

Lemma for_pallets_best (demand : dict) :
  forall pals acc acc',
    scored fb acc ->
    for_pallets cap fb demand pals acc = Returned acc' ->
    scored fb acc' /\ snd acc <= snd acc' /\
    (forall pal req o,
       In pal pals -> dict_get (_pid pal) demand = Some req -> (0 < req)%Z ->
       In o (unique_orientations pal) -> valid_candidate cap fb req o ->
       utilization fb o (stack_count cap (Qfloor (FreeBox.h fb / snd o)) req)
       <= snd acc').
Proof.
  induction pals as [|pal rest IH]; intros acc acc' Hsc Hrun; simpl in Hrun.
  - injection Hrun as <-. split; [exact Hsc|].
    split; [apply Qle_refl|]. intros pal req o [].
  - destruct (dict_get (_pid pal) demand) as [req|] eqn:Hreq; [|discriminate].
    destruct (req <=? 0)%Z eqn:Hr.
    + destruct (IH _ _ Hsc Hrun) as (S2 & L2 & U2).
      split; [exact S2|]. split; [exact L2|].
      intros pal' req' o [<-|Hin] Hget Hpos Ho Hv.
      * rewrite Hreq in Hget. injection Hget as <-.
        apply Z.leb_le in Hr. lia.
      * eapply U2; eassumption.
    + destruct (for_orientations cap fb pal (_pid pal) req
                  (unique_orientations pal) acc) as [acc1| |] eqn:E;
        simpl in Hrun; try discriminate.
      destruct (for_orientations_best _ _ _ _ _ _ Hsc E) as (S1 & L1 & U1).
      destruct (IH _ _ S1 Hrun) as (S2 & L2 & U2).
      split; [exact S2|]. split; [eapply Qle_trans; eassumption|].
      intros pal' req' o [<-|Hin] Hget Hpos Ho Hv.
      * rewrite Hreq in Hget. injection Hget as <-.
        eapply Qle_trans; [now apply U1|exact L2].
      * eapply U2; eassumption.
Qed.
End BestChoice.

(** X21: the candidate chosen for a free box has the highest utilization:
    the recorded score is positive and is the score of the chosen
    orientation and stack count, and no orientation of a pallet with
    positive demand that fits the box with a positive stack count scores
    more; when nothing is chosen, no such orientation has a positive
    score. *)
Theorem chosen_candidate_is_best (cap : Z) (fb : FreeBox.t) (demand : dict)
    (pallets_sorted : list PalletSpec.t) (best : option choice) (best_util : Q) :
  for_pallets cap fb demand pallets_sorted (None, 0)
  = Returned (best, best_util) ->
  match best with
  | None => best_util = 0
  | Some b =>
      0 < best_util /\
      best_util = utilization fb (c_l b, c_w b, c_h b) (c_stacks b)
  end /\
  (forall pal req o,
     In pal pallets_sorted -> dict_get (_pid pal) demand = Some req ->
     (0 < req)%Z -> In o (unique_orientations pal) ->
     valid_candidate cap fb req o ->
     utilization fb o (stack_count cap (Qfloor (FreeBox.h fb / snd o)) req)
     <= best_util).
Proof.
  intro Hrun.
  destruct (for_pallets_best cap fb demand pallets_sorted (None, 0)
              (best, best_util) eq_refl Hrun) as (S & _ & U).
  split; [exact S|exact U].
Qed.

Lemma chosen_candidate_is_best_witness :
  on_return
    (for_pallets 0 (FreeBox.mk 0 0 0 3 10 5) (initial_missed crossing_pallets)
       crossing_pallets (None, 0))
    (fun r => match fst r with
              | None => snd r = 0
              | Some b =>
                  0 < snd r /\
                  snd r = utilization (FreeBox.mk 0 0 0 3 10 5)
                            (c_l b, c_w b, c_h b) (c_stacks b)
              end).
Proof.
  destruct (for_pallets 0 (FreeBox.mk 0 0 0 3 10 5)
              (initial_missed crossing_pallets) crossing_pallets (None, 0))
    as [[best best_util]| |] eqn:Hrun; [|vm_compute in Hrun; discriminate..].
  simpl.
  apply (chosen_candidate_is_best 0 (FreeBox.mk 0 0 0 3 10 5)
           (initial_missed crossing_pallets) crossing_pallets
           best best_util Hrun).
Defined.

(** ** Something fits, something is placed *)














(** ** The order of the free list *)

Section GenericSort.
Context {A : Type} (le : A -> A -> bool) (R : A -> A -> Prop).
Hypothesis le_true : forall a b, le a b = true -> R a b.
Hypothesis le_false : forall a b, le a b = false -> R b a.
Hypothesis R_trans : forall a b c, R a b -> R b c -> R a c.

Lemma insert_sorted_sorted (a : A) (xs : list A) :
  StronglySorted R xs -> StronglySorted R (insert_sorted le a xs).
Proof.
  induction 1 as [|b t Hs IH Hb]; simpl; [repeat constructor|].
  destruct (le a b) eqn:E.
  - constructor; [now constructor|].
    constructor; [now apply le_true|].
    eapply Forall_impl; [|exact Hb]. intros c Hc.
    eapply R_trans; [apply le_true; exact E|exact Hc].
  - constructor; [exact IH|].
    eapply Permutation_Forall; [apply insert_sorted_perm|].
    constructor; [now apply le_false|exact Hb].
Qed.

Lemma stable_sort_sorted (xs : list A) :
  StronglySorted R (stable_sort le xs).
Proof.
  induction xs as [|a xs IH]; simpl; [constructor|].
  now apply insert_sorted_sorted.
Qed.
End GenericSort.

Lemma freebox_le_true (a b : FreeBox.t) : freebox_le a b = true -> zyx_le a b.
Proof.
  unfold freebox_le, zyx_le.
  destruct (Qeq_bool (FreeBox.z a) (FreeBox.z b)) eqn:Ez.
  - apply Qeq_bool_iff in Ez.
    destruct (Qeq_bool (FreeBox.y a) (FreeBox.y b)) eqn:Ey.
    + apply Qeq_bool_iff in Ey. intro H. apply Qle_bool_iff in H. tauto.
    + intro H. apply Qltb_lt in H. tauto.
  - intro H. apply Qltb_lt in H. tauto.
Qed.

Lemma freebox_le_false (a b : FreeBox.t) : freebox_le a b = false -> zyx_le b a.
Proof.
  unfold freebox_le, zyx_le.
  destruct (Qeq_bool (FreeBox.z a) (FreeBox.z b)) eqn:Ez.
  - apply Qeq_bool_iff in Ez.
    destruct (Qeq_bool (FreeBox.y a) (FreeBox.y b)) eqn:Ey.
    + apply Qeq_bool_iff in Ey. intro H.
      assert (Hx : FreeBox.x b < FreeBox.x a).
      { apply Qnot_le_lt. intro Hle. apply Qle_bool_iff in Hle. congruence. }
      right. split; [now symmetry|]. right. split; [now symmetry|].
      now apply Qlt_le_weak.
    + apply Qeq_bool_neq in Ey. intro H. apply Qltb_ge in H.
      right. split; [now symmetry|]. left.
      destruct (Qlt_le_dec (FreeBox.y b) (FreeBox.y a)) as [Hlt|Hle];
        [exact Hlt|].
      exfalso. apply Ey. now apply Qle_antisym.
  - apply Qeq_bool_neq in Ez. intro H. apply Qltb_ge in H. left.
    destruct (Qlt_le_dec (FreeBox.z b) (FreeBox.z a)) as [Hlt|Hle];
      [exact Hlt|].
    exfalso. apply Ez. now apply Qle_antisym.
Qed.

Lemma zyx_le_trans (a b c : FreeBox.t) : zyx_le a b -> zyx_le b c -> zyx_le a c.
Proof.
  unfold zyx_le.
  intros [H1|[E1 [H1|[F1 H1]]]] [H2|[E2 [H2|[F2 H2]]]];
    try (left; lra);
    right; (split; [lra|]); try (left; lra);
    right; split; lra.
Qed.

(** X23: a pass starts with the same free boxes as before, arranged in
    ascending order of [(z, y, x)]: lowest first, then smallest y, then
    smallest x. *)
Theorem pass_starts_sorted (st : locals) :
  Permutation (free st) (free (begin_pass st)) /\
  StronglySorted
    (fun a b =>
       FreeBox.z a < FreeBox.z b \/
       (FreeBox.z a == FreeBox.z b /\
        (FreeBox.y a < FreeBox.y b \/
         (FreeBox.y a == FreeBox.y b /\ FreeBox.x a <= FreeBox.x b))))
    (free (begin_pass st)).
Proof.
  split; [apply stable_sort_perm|].
  apply (stable_sort_sorted freebox_le zyx_le freebox_le_true freebox_le_false
           zyx_le_trans).
Qed.

(** ** The counter of demand left *)

Lemma fold_add_acc (l : list Z) (a : Z) :
  fold_left Z.add l a = (a + fold_left Z.add l 0)%Z.
Proof.
  revert a. induction l as [|x l IH]; intro a; simpl; [lia|].
  rewrite (IH (a + x)%Z), (IH x). lia.
Qed.

Lemma sum_dict_set (k : string) (v old : Z) (d : dict) :
  dict_get k d = Some old ->
  sum (dict_values (dict_set k v d)) = (sum (dict_values d) - old + v)%Z.
Proof.
  unfold sum, dict_values.
  induction d as [|[k0 v0] t IH]; simpl; [discriminate|].
  destruct (String.eqb k0 k); simpl.
  - intro E. injection E as <-.
    rewrite (fold_add_acc _ v), (fold_add_acc _ v0). lia.
  - intro E. rewrite (fold_add_acc _ v0), (fold_add_acc (map snd t) v0).
    rewrite (IH E). lia.
Qed.

(** X24: the counter [total_left] is, at every iteration of the scan and
    when the loop over the containers ends, the sum of the values of the
    remaining-demand map. *)
Theorem total_left_is_sum (cap : Z) (fuel : nat)
    (containers : list ContainerSpec.t) (pallets : list PalletSpec.t) :
  (forall cid st st',
     scan_guard st = true ->
     total_left st = sum (dict_values (missed st)) ->
     scan_body cap (stable_sort (key_le pallet_key) pallets) cid st
     = Returned st' ->
     total_left st' = sum (dict_values (missed st'))) /\
  (forall lo mi tl,
     for_containers fuel cap (stable_sort (key_le pallet_key) pallets)
       (container_instances_of containers) [] (initial_missed pallets)
       (sum (dict_values (initial_missed pallets)))
     = Returned (lo, mi, tl) ->
     tl = sum (dict_values mi)).
Proof.
  assert (Hstep : forall ps cid st st',
            scan_guard st = true ->
            total_left st = sum (dict_values (missed st)) ->
            scan_body cap ps cid st = Returned st' ->
            total_left st' = sum (dict_values (missed st'))).
  { intros ps cid st st' Hg H Hrun.
    destruct (scan_body_cases cap ps cid st Hg) as [fb [_ Hc]].
    rewrite Hrun in Hc. simpl in Hc.
    destruct Hc as [->|(b & old & _ & Hold & _ & ->)]; [exact H|].
    simpl. rewrite (sum_dict_set _ _ old _ Hold). lia. }
  split; [intros cid st st'; apply Hstep|].
  intros lo mi tl Hrun.
  pose proof (for_containers_satisfies cap
                (stable_sort (key_le pallet_key) pallets) (fun _ => True)
                (fun _ mi tl => tl = sum (dict_values mi))
                (fun _ st => total_left st = sum (dict_values (missed st)))
                (container_instances_of containers)) as H.
  assert (H' : satisfies
            (fun r => snd r = sum (dict_values (snd (fst r)))) (fun _ => True)
            (for_containers fuel cap (stable_sort (key_le pallet_key) pallets)
               (container_instances_of containers) [] (initial_missed pallets)
               (sum (dict_values (initial_missed pallets))))).
  { apply H; auto.
    - intros inst st _ Hs. unfold end_pass. destruct (placed_any st); exact Hs.
    - intros c cid st _ Hs Hg.
      destruct (scan_body cap _ cid st) as [st'| |] eqn:E; simpl; auto.
      eapply Hstep; eassumption. }
  rewrite Hrun in H'. exact H'.
Qed.

Lemma total_left_is_sum_witness :
  on_return
    (for_containers 50 0 (stable_sort (key_le pallet_key) crossing_pallets)
       (container_instances_of crossing_containers) []
       (initial_missed crossing_pallets)
       (sum (dict_values (initial_missed crossing_pallets))))
    (fun r => snd r = sum (dict_values (snd (fst r)))).
Proof.
  destruct (for_containers 50 0 _ _ [] _ _) as [[[lo mi] tl]| |] eqn:Hrun;
    [|vm_compute in Hrun; discriminate..].
  simpl.
  apply (proj2 (total_left_is_sum 0 50 crossing_containers crossing_pallets)
           lo mi tl Hrun).
Defined.

(** ** Reporting fields *)

Lemma layer_one_based (z h : Q) : 0 <= z -> (1 <= Qfloor (z / pymax h 1) + 1)%Z.
Proof.
  intro Hz.
  assert (Hm : 0 < pymax h 1).
  { eapply Qlt_le_trans; [|apply (pymax_ge_r h 1)]. reflexivity. }
  assert (H : (Qfloor 0 <= Qfloor (z / pymax h 1))%Z).
  { apply Qfloor_resp_le. apply Qle_shift_div_l; [exact Hm|]. lra. }
  change (Qfloor 0) with 0%Z in H. lia.
Qed.

Lemma pack_with_one_based (cap : Z) (fuel : nat)
    (cs : list ContainerSpec.t) (ps : list PalletSpec.t) :
  Forall valid_pallet ps ->
  satisfies (fun r => Forall one_based (fst r)) (fun _ => True)
            (pack_with cap fuel cs ps).
Proof.
  intro Hv.
  assert (Hvs : Forall valid_pallet (stable_sort (key_le pallet_key) ps))
    by now apply stable_sort_Forall.
  eapply satisfies_weaken;
    [| |apply (pack_satisfies cap fuel cs ps
           (fun lo _ _ => Forall one_based lo)
           (fun inst st =>
              ((1 <= row st)%Z /\ (1 <= col st)%Z) /\
              Forall (box_inside (fst inst)) (free st) /\
              Forall one_based (loaded st))
           (fun _ => True))].
  - intros r [_ H]. exact H.
  - auto.
  - intros c cid lo mi tl _ H. simpl. split; [lia|]. split; [|exact H].
    constructor; [|constructor]. unfold box_inside. cbn. repeat split; lra.
  - intros inst st (H0 & H1 & H2). simpl. repeat split; try tauto.
    now apply stable_sort_Forall.
  - intros inst st (H0 & H1 & H2). unfold end_pass.
    destruct (placed_any st); simpl; repeat split; try tauto; lia.
  - intros inst st (H0 & H1 & H2). simpl. tauto.
  - intros c cid st fb b old _ (H0 & H1 & H2) _ Hfb Hch _. simpl in *.
    assert (Hbox : box_inside c fb).
    { rewrite Forall_forall in H1. apply H1. eapply nth_error_In. exact Hfb. }
    split; [lia|]. split.
    + apply Forall_app. split; [now apply Forall_pop|].
      eapply split_inside; eassumption.
    + apply Forall_app. split; [exact H2|]. constructor; [|constructor].
      unfold one_based. cbn. repeat split; try lia.
      apply layer_one_based. destruct Hbox as (_ & _ & (Z0 & _)). exact Z0.
  - auto.
  - intros inst st (_ & _ & H). exact H.
  - constructor.
Qed.

(** X25: on valid inputs the reporting fields of every placed item start
    at 1: its row, its column and its layer are at least 1. *)
Theorem reporting_fields_one_based (fuel : nat)
    (containers : list ContainerSpec.t) (pallets : list PalletSpec.t)
    (placed : list LoadedItem.t) (rest : dict) :
  valid_inputs containers pallets ->
  pack fuel containers pallets = Returned (placed, rest) ->
  Forall (fun it => (1 <= LoadedItem.row it)%Z /\ (1 <= LoadedItem.col it)%Z /\
                    (1 <= LoadedItem.layer it)%Z) placed.
Proof.
  intros [_ Hv] Hrun. unfold pack in Hrun.
  pose proof (pack_with_one_based STACK_MAX fuel containers pallets Hv) as H.
  rewrite Hrun in H. exact H.
Qed.

Lemma reporting_fields_one_based_witness :
  on_return (pack 50 crossing_containers crossing_pallets)
    (fun r => Forall one_based (fst r)).
Proof.
  destruct (pack 50 crossing_containers crossing_pallets)
    as [[placed rest]| |] eqn:Hrun; [|vm_compute in Hrun; discriminate..].
  simpl.
  apply (reporting_fields_one_based 50 crossing_containers crossing_pallets
           placed rest).
  - split; repeat constructor; reflexivity || (intro E; discriminate E).
  - exact Hrun.
Defined.
